(** * Artificial retina: motion and looming detector

    A shallow embedding of [ArtificialRetina] (Artificiaal retina.py):
    the bounded history buffers, the temporal tracker
    [calculate_dynamics], the blob selection and the per-frame body of
    [process_visual_field].

    Conventions of the embedding.
    - Python [int] is [Z]; [len] is [nat].
    - Python [float] is idealised as exact arithmetic where its value is
      only compared or displayed: rationals [Q] for time stamps and areas,
      reals [R] for the one value that goes through [np.sqrt] (the speed).
      Where a float is turned back into an integer (the scale factors of
      the coordinate mapping, lines 130-133) every operation is rounded to
      the nearest float64, ties to even ([round53]).
    - [time.time()] is an input of the call that reads it.
    - OpenCV is an interface ([Class]): the code under study only calls it. *)

From Stdlib Require Import String Ascii.
From Stdlib Require Import ZArith QArith Qround Reals Qreals.
From Stdlib Require Qcanon.
From Stdlib Require Import List Bool Lia Lra.
Import ListNotations.

Local Open Scope Z_scope.
Local Open Scope string_scope.
Local Open Scope list_scope.

(** ** Configuration ([__init__], lines 10-14) *)

Definition RETINA_W : Z := 320.
Definition RETINA_H : Z := 240.
Definition MIN_AREA : Z := 800.
Definition ADAPTATION_RATE : Q := 2 # 100.
Definition HISTORY_LEN : nat := 5.
Definition PIXEL_TO_METER_METRIC : Q := 5 # 100.

(** ** [collections.deque(maxlen=n)] *)

(** [deque.append]: the element is added on the right, then the deque is
    trimmed from the left when it is longer than [maxlen]. *)
Definition deque_append {A : Type} (maxlen : nat) (d : list A) (x : A) : list A :=
  let d' := d ++ [x] in
  if (maxlen <? length d')%nat then tl d' else d'.

(** ** Small numeric helpers *)

Definition Qgtb (a b : Q) : bool := negb (Qle_bool a b).
Definition Qltb (a b : Q) : bool := Qgtb b a.
Definition Rgtb (a b : R) : bool := if Rgt_dec a b then true else false.

(** Python [int(q)] on a float: truncation toward zero. *)
Definition py_int (q : Q) : Z := Z.quot (Qnum q) (Z.pos (Qden q)).

(** [np.mean] of a list of integers; [None] stands for [nan], the value
    numpy returns on an empty list. *)
Definition np_mean (l : list Z) : option Q :=
  match l with
  | [] => None
  | _ :: _ => Some (inject_Z (fold_right Z.add 0%Z l) / inject_Z (Z.of_nat (length l)))%Q
  end.

(** [needle in hay] on Python strings: substring test. *)
Fixpoint str_in (needle hay : string) : bool :=
  String.prefix needle hay
  || match hay with
     | EmptyString => false
     | String _ rest => str_in needle rest
     end.

(** ** The retina object *)

Record Retina (Image : Type) : Type := mkRetina {
  avg_frame : option Image;
  position_history : list (Z * Z);
  area_history : list Z;
  prev_time : Q
}.

Arguments mkRetina {Image} _ _ _ _.
Arguments avg_frame {Image} _.
Arguments position_history {Image} _.
Arguments area_history {Image} _.
Arguments prev_time {Image} _.

(** [__init__], lines 17-20; [t0] is the clock reading taken there. *)
Definition init {Image : Type} (t0 : Q) : Retina Image :=
  mkRetina None [] [] t0.

Definition set_prev_time {Image} (t : Q) (self : Retina Image) : Retina Image :=
  mkRetina (avg_frame self) (position_history self) (area_history self) t.

Definition set_avg_frame {Image} (a : option Image) (self : Retina Image) : Retina Image :=
  mkRetina a (position_history self) (area_history self) (prev_time self).

Definition remember {Image} (center : Z * Z) (area : Z) (self : Retina Image) : Retina Image :=
  mkRetina (avg_frame self)
           (deque_append HISTORY_LEN (position_history self) center)
           (deque_append HISTORY_LEN (area_history self) area)
           (prev_time self).

Definition clear_memory {Image} (self : Retina Image) : Retina Image :=
  mkRetina (avg_frame self) [] [] (prev_time self).

(** ** Temporal tracker: [calculate_dynamics], lines 38-81 *)

(** Lines 75-79; a [nan] delta fails both comparisons. *)
Definition looming (area_delta : option Q) : string :=
  match area_delta with
  | None => "Stationary"
  | Some d =>
      if Qgtb d (inject_Z 50) then "APPROACHING !!!"
      else if Qltb d (inject_Z (-50)) then "Receding"
      else "Stationary"
  end.

Definition calculate_dynamics {Image} (self : Retina Image)
    (center : Z * Z) (area : Z) (current_time : Q)
  : Retina Image * (R * string) :=
  let dt := (current_time - prev_time self)%Q in
  let self := set_prev_time current_time self in
  if Qeq_bool dt 0 then (self, (0%R, "Static"))
  else
    let self := remember center area self in
    if (length (position_history self) <? 2)%nat then (self, (0%R, "Analyzing..."))
    else
      let start_pos := hd (0, 0) (position_history self) in
      let curr_pos := last (position_history self) (0, 0) in
      let dx := fst curr_pos - fst start_pos in
      let dy := snd curr_pos - snd start_pos in
      let distance_pixels := sqrt (IZR (dx ^ 2 + dy ^ 2)) in
      let speed :=
        ((distance_pixels * Q2R PIXEL_TO_METER_METRIC)
         / (Q2R dt * INR (length (position_history self))))%R in
      let avg_past_area := np_mean (removelast (area_history self)) in
      let area_delta := option_map (fun m => (inject_Z area - m)%Q) avg_past_area in
      (self, (speed, looming area_delta)).

(** ** Motion classifier (lines 143-144) *)

Definition is_danger (speed : R) (motion_state : string) : bool :=
  Rgtb speed 50 || str_in "APPROACHING" motion_state.

Definition RED : Z * Z * Z := (0, 0, 255).
Definition GREEN : Z * Z * Z := (0, 255, 0).

Definition color_of (danger : bool) : Z * Z * Z :=
  if danger then RED else GREEN.

(** ** The imaging interface

    The two OpenCV calls of the contrast filter are kept apart from the
    calls of the detection pipeline. *)

Class ContrastOps (Image : Type) : Type := {
  GaussianBlur : Image -> Z * Z -> Z -> Image;
  subtract : Image -> Image -> Image
}.

Class Vision (Image Contour : Type) : Type := {
  shape : Image -> Z * Z;                      (* (rows, columns) *)
  resize : Image -> Z * Z -> Image;
  cvtColor_BGR2GRAY : Image -> Image;
  astype_float : Image -> Image;
  accumulateWeighted : Image -> Image -> Q -> Image;
  convertScaleAbs : Image -> Image;
  absdiff : Image -> Image -> Image;
  threshold_binary : Image -> Z -> Z -> Image;
  dilate : Image -> Z -> Image;
  findContours : Image -> list Contour;
  contourArea : Contour -> Q;
  boundingRect : Contour -> Z * Z * Z * Z
}.

(** What one cycle draws on the output frame (lines 147-160). *)
Record Annotation : Type := mkAnnotation {
  ann_box : (Z * Z) * (Z * Z);
  ann_color : Z * Z * Z;
  ann_speed : R;
  ann_state : string;
  ann_trail : list ((Z * Z) * (Z * Z))
}.

(** The two layers shown at the end of a cycle (lines 168-169). *)
Record Shown (Image : Type) : Type := mkShown {
  display_frame : Image * option Annotation;
  ganglion_layer : Image
}.

Arguments mkShown {Image} _ _.
Arguments display_frame {Image} _.
Arguments ganglion_layer {Image} _.

(** Lines 158-160: one segment per pair of consecutive positions. *)
Fixpoint trail (ps : list (Z * Z)) : list ((Z * Z) * (Z * Z)) :=
  match ps with
  | p :: (q :: _) as rest => (p, q) :: trail rest
  | _ => []
  end.

(** ** float64 arithmetic of the coordinate mapping

    A float64 value is the rational it denotes.  [round53] rounds a
    rational to the nearest one with a 53-bit significand, ties to even;
    the exponent is not bounded, which agrees with float64 for every
    magnitude from 2^-1022 up to 2^1024, far beyond what the sizes and
    coordinates of a frame produce. *)

(** [floor (log2 (a / d))] for positive [a] and [d]. *)
Definition binade (a d : Z) : Z :=
  let e0 := Z.log2 a - Z.log2 d in
  if Z.ltb (a * 2 ^ Z.max 0 (- e0)) (d * 2 ^ Z.max 0 e0) then e0 - 1 else e0.

(** The integer nearest to [num / den], ties to the even one. *)
Definition nearest_even (num den : Z) : Z :=
  let m := num / den in
  let r := num mod den in
  if Z.ltb (2 * r) den then m
  else if Z.ltb den (2 * r) then m + 1
  else if Z.even m then m else m + 1.

Definition round53 (q : Q) : Q :=
  let q := Qred q in
  let n := Qnum q in
  let d := Z.pos (Qden q) in
  if Z.eqb n 0 then 0%Q
  else
    let a := Z.abs n in
    let s := 52 - binade a d in
    let m := nearest_even (a * 2 ^ Z.max 0 s) (d * 2 ^ Z.max 0 (- s)) in
    Qred (Qmake (Z.sgn n * m * 2 ^ Z.max 0 (- s)) (Z.to_pos (2 ^ Z.max 0 s))).

(** [float(n)] of a Python [int]. *)
Definition float_of_int (n : Z) : Q := round53 (inject_Z n).

(** [a / b] on two Python [int]s: the correctly rounded quotient. *)
Definition int_truediv (a b : Z) : Q := round53 (inject_Z a / inject_Z b).

(** [n * f] for an [int] and a [float]. *)
Definition int_times_float (n : Z) (f : Q) : Q := round53 (float_of_int n * f).

(** An integer that float64 holds exactly. *)
Definition fits53 (n : Z) : Prop := Z.abs n < 2 ^ 53.

(** Lines 129-133: low-resolution box to full-resolution box. *)
Definition map_to_screen (frame_shape : Z * Z) (box : Z * Z * Z * Z)
  : Z * Z * Z * Z :=
  let '(x, y, w, h) := box in
  let scale_x := int_truediv (snd frame_shape) RETINA_W in
  let scale_y := int_truediv (fst frame_shape) RETINA_H in
  (py_int (int_times_float x scale_x), py_int (int_times_float y scale_y),
   py_int (int_times_float w scale_x), py_int (int_times_float h scale_y)).

(** Lines 136-137. *)
Definition center_point (B : Z * Z * Z * Z) : Z * Z :=
  let '(X, Y, W, H) := B in (X + W / 2, Y + H / 2).

Definition object_area (B : Z * Z * Z * Z) : Z :=
  let '(_, _, W, H) := B in W * H.

Section Pipeline.

Context {Image Contour : Type}.
Context {contrast : ContrastOps Image}.
Context {cv : Vision Image Contour}.

(** Lines 26-36. *)
Definition mimic_ganglion_cells (gray_frame : Image) : Image :=
  let g1 := GaussianBlur gray_frame (3, 3) 0 in
  let g2 := GaussianBlur gray_frame (13, 13) 0 in
  subtract g1 g2.

(** Lines 118-125: one step of the loop over the contours, on the pair
    [(focus_cnt, max_area)]. *)
Definition consider (acc : option Contour * Q) (cnt : Contour)
  : option Contour * Q :=
  let area := contourArea cnt in
  if Qgtb area (inject_Z MIN_AREA) && Qgtb area (snd acc)
  then (Some cnt, area)
  else acc.

Definition select_focus (contours : list Contour) : option Contour :=
  fst (fold_left consider contours (None, 0%Q)).

(** Lines 103-112: background update and foreground contours. *)
Definition adapt (gray avg : Image) : Image :=
  accumulateWeighted gray avg ADAPTATION_RATE.

Definition foreground (gray avg : Image) : list Contour :=
  let frame_delta := absdiff gray (convertScaleAbs avg) in
  let thresh := threshold_binary frame_delta 30 255 in
  let thresh := dilate thresh 4 in
  findContours thresh.

(** Lines 127-160: the branch taken when a focus was found. *)
Definition attend (self : Retina Image) (frame : Image) (focus_cnt : Contour)
    (now : Q) : Retina Image * Annotation :=
  let B := map_to_screen (shape frame) (boundingRect focus_cnt) in
  let '(X, Y, W, H) := B in
  let '(self, (speed, motion_state)) :=
    calculate_dynamics self (center_point B) (object_area B) now in
  let color := color_of (is_danger speed motion_state) in
  (self,
   mkAnnotation ((X, Y), (X + W, Y + H)) color speed motion_state
                (trail (position_history self))).

(** Lines 90-169: the body of the loop for a frame that was read.
    [None] is the [continue] of the seeding cycle, where nothing is shown. *)
Definition cycle (self : Retina Image) (frame : Image) (now : Q)
  : Retina Image * option (Shown Image) :=
  let small_frame := resize frame (RETINA_W, RETINA_H) in
  let gray := cvtColor_BGR2GRAY small_frame in
  let bio_view := mimic_ganglion_cells gray in
  match avg_frame self with
  | None => (set_avg_frame (Some (astype_float gray)) self, None)
  | Some avg =>
      let avg := adapt gray avg in
      let self := set_avg_frame (Some avg) self in
      match select_focus (foreground gray avg) with
      | Some focus_cnt =>
          let '(self, ann) := attend self frame focus_cnt now in
          (self, Some (mkShown (frame, Some ann) bio_view))
      | None =>
          (clear_memory self, Some (mkShown (frame, None) bio_view))
      end
  end.

(** Lines 86-172: the loop.  The feed lists, per frame read, the frame,
    the clock reading and whether [q] is pressed at the end of the cycle;
    the end of the feed is the failing [cap.read()]. *)
Fixpoint process_visual_field (self : Retina Image)
    (feed : list (Image * Q * bool))
  : Retina Image * list (Shown Image) :=
  match feed with
  | [] => (self, [])
  | (frame, now, quit) :: rest =>
      match cycle self frame now with
      | (self, None) => process_visual_field self rest
      | (self, Some out) =>
          if (quit : bool) then (self, [out])
          else let '(self, outs) := process_visual_field self rest in
               (self, out :: outs)
      end
  end.

(** Whether a cycle produced a focus region. *)
Definition focus_emitted (out : option (Shown Image)) : bool :=
  match out with
  | Some s => match snd (display_frame s) with Some _ => true | None => false end
  | None => false
  end.

End Pipeline.

(** ** Vocabulary of the statements *)

(** Euclidean distance between two pixel positions. *)
Definition euclid_dist (p q : Z * Z) : R :=
  sqrt ((IZR (fst q) - IZR (fst p)) ^ 2 + (IZR (snd q) - IZR (snd p)) ^ 2)%R.

Definition sumZ (l : list Z) : Z := fold_right Z.add 0 l.

(** Arithmetic mean of a non-empty list of integers. *)
Definition mean (l : list Z) : Q :=
  (inject_Z (sumZ l) / inject_Z (Z.of_nat (length l)))%Q.

(** The five strings [calculate_dynamics] can return. *)
Definition motion_states : list string :=
  ["Static"; "Analyzing..."; "Stationary"; "APPROACHING !!!"; "Receding"].

(** The three of them that classify looming. *)
Definition looming_states : list string :=
  ["Stationary"; "APPROACHING !!!"; "Receding"].

(** A sequence of direct tracker calls. *)
Definition tracker_calls {Image} (self : Retina Image)
    (calls : list (Z * Z * Z * Q)) : Retina Image :=
  fold_left (fun s '(center, area, now) => fst (calculate_dynamics s center area now))
            calls self.

(** The invariant of the retina object along a run. *)
Definition tidy {Image} (self : Retina Image) : Prop :=
  (length (position_history self) <= HISTORY_LEN)%nat /\
  (length (area_history self) <= HISTORY_LEN)%nat /\
  (avg_frame self = None ->
   position_history self = [] /\ area_history self = []).

(** What the selection loop has established after the contours [seen],
    in terms of its two variables [(focus_cnt, max_area)]. *)
Definition chosen {Image Contour : Type} {cv : Vision Image Contour}
    (seen : list Contour) (acc : option Contour * Q) : Prop :=
  match fst acc with
  | None =>
      snd acc = 0%Q /\
      forall c, In c seen -> (contourArea c <= inject_Z MIN_AREA)%Q
  | Some c =>
      snd acc = contourArea c /\
      (inject_Z MIN_AREA < contourArea c)%Q /\
      exists l1 l2,
        seen = l1 ++ c :: l2 /\
        (forall c', In c' l1 -> (contourArea c' < contourArea c)%Q) /\
        (forall c', In c' l2 -> (contourArea c' <= contourArea c)%Q)
  end.

(** The low-resolution gray image of a captured frame (lines 91-92). *)
Definition retinal_input {Image Contour : Type} {cv : Vision Image Contour}
    (frame : Image) : Image :=
  cvtColor_BGR2GRAY (resize frame (RETINA_W, RETINA_H)).

(** ** A test double of the imaging interface

    A scene is given by the shape of the captured frame and the blobs that
    contour extraction finds in it; every filter is the identity. *)
Module Bench.

Definition Blob : Type := Q * (Z * Z * Z * Z).

Record Scene : Type := mkScene {
  scene_shape : Z * Z;
  scene_blobs : list Blob
}.

#[global] Instance contrast : ContrastOps Scene := {|
  GaussianBlur := fun i _ _ => i;
  subtract := fun a _ => a
|}.

(** A second contrast filter, which blanks the layer. *)
Definition blank : ContrastOps Scene := {|
  GaussianBlur := fun _ _ _ => mkScene (0, 0) [];
  subtract := fun _ _ => mkScene (0, 0) []
|}.

#[global] Instance vision : Vision Scene Blob := {|
  shape := scene_shape;
  resize := fun i _ => i;
  cvtColor_BGR2GRAY := fun i => i;
  astype_float := fun i => i;
  accumulateWeighted := fun _ acc _ => acc;
  convertScaleAbs := fun i => i;
  absdiff := fun a _ => a;
  threshold_binary := fun i _ _ => i;
  dilate := fun i _ => i;
  findContours := scene_blobs;
  contourArea := fun b => fst b;
  boundingRect := fun b => snd b
|}.

Definition vga (blobs : list Blob) : Scene := mkScene (480, 640) blobs.

Definition running (pos : list (Z * Z)) (areas : list Z) (t : Q) : Retina Scene :=
  mkRetina (Some (vga [])) pos areas t.

End Bench.

(** ** Further vocabulary for runs of the tracker and of the loop *)

(** The last [n] elements of a list. *)
Definition lastn {A : Type} (n : nat) (l : list A) : list A :=
  skipn (length l - n) l.

(** Every call of the sequence reads a clock value different from the one
    read before it ([prev] is the reading before the first call). *)
Fixpoint ticking (prev : Q) (calls : list (Z * Z * Z * Q)) : Prop :=
  match calls with
  | [] => True
  | (_, _, now) :: rest => ~ (now - prev == 0)%Q /\ ticking now rest
  end.

(** The feed up to and including the first frame at which [q] is pressed. *)
Fixpoint until_quit {Image : Type} (feed : list (Image * Q * bool))
  : list (Image * Q * bool) :=
  match feed with
  | [] => []
  | (frame, now, quit) :: rest =>
      if quit then [(frame, now, quit)]
      else (frame, now, quit) :: until_quit rest
  end.

(** The annotation a cycle drew, if it drew one. *)
Definition annotation_of {Image : Type} (out : option (Shown Image))
  : option Annotation :=
  match out with
  | Some s => snd (display_frame s)
  | None => None
  end.

(** The test of the minimum-area filter alone (first conjunct of line 123). *)
Definition qualifies {Image Contour : Type} {cv : Vision Image Contour}
    (cnt : Contour) : bool :=
  Qgtb (contourArea cnt) (inject_Z MIN_AREA).

(** * Exercises of week 8 (week8 qs 15.py)

    Numbers are Python [int]s; text is a string of code points below 256. *)
Module Week8.

(** Lines 3-6. *)
Definition rectangle_area_perimeter (length width : Z) : Z * Z :=
  let area := length * width in
  let perimeter := 2 * (length + width) in
  (area, perimeter).

(** Lines 14-19; [%] is Python's floor remainder. *)
Definition sum_even_numbers (numbers : list Z) : Z :=
  fold_left (fun total num => if Z.eqb (num mod 2) 0 then total + num else total)
            numbers 0.

(** [str.lower] on one code point below 256: the letters A-Z and the
    Latin-1 capitals (192-222 without the multiplication sign 215) move
    up by 32. *)
Definition lower_char (c : ascii) : ascii :=
  let n := nat_of_ascii c in
  if ((65 <=? n) && (n <=? 90))%nat
     || ((192 <=? n) && (n <=? 222) && negb (n =? 215))%nat
  then ascii_of_nat (n + 32)
  else c.

Definition lower (s : string) : string :=
  string_of_list_ascii (map lower_char (list_ascii_of_string s)).

(** [s[::-1]]. *)
Definition reversed (s : string) : string :=
  string_of_list_ascii (rev (list_ascii_of_string s)).

(** Lines 24-31. *)
Definition is_palindrome (s : string) : bool :=
  let s := lower s in
  if String.eqb s (reversed s) then true else false.

End Week8.

(** * Login system (week2.1.py)

    SHA-256 is a parameter; the clock reading of a log record is an input
    of the call that writes it; a [dict] read with [get] is an association
    list searched from the front. *)
Module Login.

Record LogEntry : Type := mkLogEntry {
  user : string;
  activity : string;
  time : string
}.

Fixpoint dict_get (d : list (string * string)) (key : string) : option string :=
  match d with
  | [] => None
  | (k, v) :: rest => if String.eqb k key then Some v else dict_get rest key
  end.

Section Hashing.

Variable sha256_hexdigest : string -> string.

(** Lines 10-14. *)
Definition hash_password (password : string) : string :=
  sha256_hexdigest password.

(** Lines 28-35; a missing user gives [None], which equals no digest. *)
Definition validate_credentials (username password : string)
    (users_db : list (string * string)) : bool :=
  let hashed_input_password := hash_password password in
  match dict_get users_db username with
  | Some stored_password => String.eqb stored_password hashed_input_password
  | None => false
  end.

(** Lines 38-46; [stamp] is [get_current_timestamp()]. *)
Definition log_user_activity (username activity stamp : string)
    (logs : list LogEntry) : list LogEntry :=
  logs ++ [mkLogEntry username activity stamp].

(** Lines 49-58: the result and the log after the call. *)
Definition login_user (username password : string)
    (users_db : list (string * string)) (stamp : string) (logs : list LogEntry)
  : bool * list LogEntry :=
  if validate_credentials username password users_db
  then (true, log_user_activity username "LOGIN_SUCCESS" stamp logs)
  else (false, log_user_activity username "LOGIN_FAILED" stamp logs).

(** Lines 69-72: the user table of [start_application]. *)
Definition users_db : list (string * string) :=
  [("admin", hash_password "admin123"); ("john", hash_password "john@2024")].

(** Lines 74-88 without the printing: the outcome of the one login and the
    activity log that is printed. *)
Definition start_application (username password stamp : string)
  : bool * list LogEntry :=
  login_user username password users_db stamp [].

End Hashing.

End Login.

(** * Properties *)

(** ** The bounded deque *)

Lemma deque_append_length {A} (n : nat) (d : list A) (x : A) :
  (length d <= n)%nat -> (length (deque_append n d x) <= n)%nat.
Proof.
  intros Hd. unfold deque_append.
  destruct (Nat.ltb_spec n (length (d ++ [x]))) as [Hlt | Hle]; [| exact Hle].
  rewrite length_app in Hlt. simpl in Hlt.
  destruct d as [| y d']; simpl in *; [lia |].
  rewrite length_app. simpl. lia.
Qed.

Lemma deque_append_last {A} (n : nat) (d : list A) (x dflt : A) :
  (1 <= n)%nat -> last (deque_append n d x) dflt = x.
Proof.
  intros Hn. unfold deque_append.
  destruct (Nat.ltb_spec n (length (d ++ [x]))) as [Hlt | Hle].
  - destruct d as [| y d']; simpl in *; [lia |].
    apply last_last.
  - apply last_last.
Qed.

Lemma deque_append_removelast {A} (n : nat) (d : list A) (x : A) :
  (1 <= n)%nat ->
  removelast (deque_append n d x)
  = if (n <? S (length d))%nat then tl d else d.
Proof.
  intros Hn. unfold deque_append. rewrite length_app. simpl.
  replace (length d + 1)%nat with (S (length d)) by lia.
  destruct (Nat.ltb_spec n (S (length d))) as [Hlt | Hle].
  - destruct d as [| y d']; simpl in *; [lia |].
    apply removelast_last.
  - apply removelast_last.
Qed.

(** ** The tracker: unfolding lemmas *)

Section Tracker.

Context {Image : Type}.
Implicit Types (self : Retina Image) (center : Z * Z) (area : Z) (now : Q).

Lemma dynamics_static self center area now :
  (now - prev_time self == 0)%Q ->
  calculate_dynamics self center area now
  = (set_prev_time now self, (0%R, "Static")).
Proof.
  intros Hdt. unfold calculate_dynamics.
  rewrite (Qeq_eq_bool _ _ Hdt). reflexivity.
Qed.

Lemma dynamics_state self center area now :
  ~ (now - prev_time self == 0)%Q ->
  fst (calculate_dynamics self center area now)
  = remember center area (set_prev_time now self).
Proof.
  intros Hdt. unfold calculate_dynamics.
  destruct (Qeq_bool (now - prev_time self) 0) eqn:E.
  - exfalso. apply Hdt. now apply Qeq_bool_eq.
  - destruct (_ <? 2)%nat; reflexivity.
Qed.

Lemma dynamics_estimate self center area now :
  ~ (now - prev_time self == 0)%Q ->
  let buf := deque_append HISTORY_LEN (position_history self) center in
  let areas := deque_append HISTORY_LEN (area_history self) area in
  let start_pos := hd (0, 0) buf in
  let curr_pos := last buf (0, 0) in
  (2 <= length buf)%nat ->
  snd (calculate_dynamics self center area now)
  = ((sqrt (IZR ((fst curr_pos - fst start_pos) ^ 2
                 + (snd curr_pos - snd start_pos) ^ 2))
      * Q2R PIXEL_TO_METER_METRIC
      / (Q2R (now - prev_time self) * INR (length buf)))%R,
     looming (option_map (fun m => (inject_Z area - m)%Q)
                         (np_mean (removelast areas)))).
Proof.
  intros Hdt buf areas start_pos curr_pos Hlen. unfold calculate_dynamics.
  destruct (Qeq_bool (now - prev_time self) 0) eqn:E.
  - exfalso. apply Hdt. now apply Qeq_bool_eq.
  - cbn [remember set_prev_time position_history area_history prev_time].
    fold buf. fold areas.
    destruct (Nat.ltb_spec (length buf) 2) as [Hlt | _]; [lia |].
    reflexivity.
Qed.

End Tracker.

(** ** The tracker: claims *)

Lemma calibration_constant : Q2R PIXEL_TO_METER_METRIC = 0.05%R.
Proof. unfold PIXEL_TO_METER_METRIC, Q2R. simpl. lra. Qed.

Lemma sqrt_sq_displacement (p q : Z * Z) :
  sqrt (IZR ((fst q - fst p) ^ 2 + (snd q - snd p) ^ 2)) = euclid_dist p q.
Proof.
  unfold euclid_dist. f_equal.
  change 2%Z with (Z.of_nat 2).
  rewrite plus_IZR, <- !pow_IZR, !minus_IZR. reflexivity.
Qed.

(** C1. In a call of [calculate_dynamics] with [dt <> 0] that leaves at
    least two positions in the position buffer, the returned speed is the
    Euclidean pixel distance between the oldest and the newest buffered
    position, times the calibration constant 0.05, divided by
    [dt * buffer_length]; the buffer is the old one with the new center
    appended (oldest evicted beyond capacity), so the newest position is
    the center just passed. *)
Theorem C1_lateral_speed {Image : Type} (self : Retina Image)
    (center : Z * Z) (area : Z) (now : Q) :
  let dt := (now - prev_time self)%Q in
  let r := calculate_dynamics self center area now in
  let buf := position_history (fst r) in
  let oldest := hd (0, 0) buf in
  let newest := last buf (0, 0) in
  ~ (dt == 0)%Q ->
  (2 <= length buf)%nat ->
  fst (snd r)
  = (euclid_dist oldest newest * 0.05 / (Q2R dt * INR (length buf)))%R
  /\ buf = deque_append HISTORY_LEN (position_history self) center
  /\ newest = center.
Proof.
  intros dt r buf oldest newest Hdt Hlen.
  assert (Hbuf : buf = deque_append HISTORY_LEN (position_history self) center).
  { unfold buf, r. rewrite dynamics_state by exact Hdt. reflexivity. }
  split; [| split].
  - unfold r. rewrite Hbuf in Hlen.
    rewrite (dynamics_estimate self center area now Hdt Hlen).
    cbn [fst snd]. unfold oldest, newest. rewrite Hbuf.
    rewrite sqrt_sq_displacement, calibration_constant. reflexivity.
  - exact Hbuf.
  - unfold newest. rewrite Hbuf. apply deque_append_last.
    unfold HISTORY_LEN. lia.
Qed.

Lemma C1_lateral_speed_witness :
  fst (snd (calculate_dynamics (Bench.running [(0, 0)] [100] 0) (3, 4) 100 1))
  = (euclid_dist (0%Z, 0%Z) (3%Z, 4%Z) * 0.05 / (Q2R (1 - 0) * INR 2))%R.
Proof.
  apply (C1_lateral_speed (Bench.running [(0, 0)] [100] 0) (3, 4) 100 1).
  - intro H. discriminate H.
  - simpl. lia.
Defined.

Lemma Qgtb_true (a b : Q) : Qgtb a b = true <-> (b < a)%Q.
Proof.
  unfold Qgtb. rewrite negb_true_iff. split.
  - intros H. apply Qnot_le_lt. intros Hle.
    apply Qle_bool_iff in Hle. congruence.
  - intros H. destruct (Qle_bool a b) eqn:E; [| reflexivity].
    apply Qle_bool_iff in E. exfalso. exact (Qlt_not_le _ _ H E).
Qed.

Lemma Qgtb_false (a b : Q) : Qgtb a b = false <-> (a <= b)%Q.
Proof.
  unfold Qgtb. rewrite negb_false_iff. apply Qle_bool_iff.
Qed.

Lemma looming_cases (d : Q) :
  (inject_Z 50 < d -> looming (Some d) = "APPROACHING !!!")%Q /\
  (d < inject_Z (-50) -> looming (Some d) = "Receding")%Q /\
  (inject_Z (-50) <= d <= inject_Z 50 -> looming (Some d) = "Stationary")%Q.
Proof.
  unfold looming, Qltb. repeat split.
  - intros H. apply Qgtb_true in H. now rewrite H.
  - intros H.
    assert (Hle : (d <= inject_Z 50)%Q).
    { apply Qlt_le_weak. eapply Qlt_trans; [exact H | reflexivity]. }
    apply Qgtb_false in Hle. rewrite Hle.
    apply Qgtb_true in H. now rewrite H.
  - intros [Hlo Hhi].
    apply Qgtb_false in Hhi. rewrite Hhi.
    apply Qgtb_false in Hlo. now rewrite Hlo.
Qed.

Lemma looming_in_range (d : option Q) : In (looming d) looming_states.
Proof.
  unfold looming, looming_states. destruct d as [d |]; simpl; [| tauto].
  destruct (Qgtb d (inject_Z 50)); [tauto |].
  destruct (Qltb d (inject_Z (-50))); tauto.
Qed.

Lemma np_mean_nonempty (l : list Z) :
  (1 <= length l)%nat -> np_mean l = Some (mean l).
Proof.
  destruct l; simpl; [lia | reflexivity].
Qed.

Lemma removelast_length {A} (l : list A) :
  length (removelast l) = pred (length l).
Proof.
  induction l as [| a [| b l'] IH]; simpl in *; try reflexivity.
  now rewrite IH.
Qed.

(** C2. In a call with [dt <> 0] that leaves at least two samples in the
    buffers, [area_delta] is the current area minus the mean of the
    buffered areas without the most recent one (which is the current
    area), and the state is "APPROACHING !!!" above +50, "Receding" below
    -50 and "Stationary" in between.  With area history
    [100,100,100,100]: area 160 gives delta 60 and the approaching state,
    area 40 gives -60 and "Receding", area 120 gives 20 and "Stationary". *)
Theorem C2_looming {Image : Type} (self : Retina Image)
    (center : Z * Z) (area : Z) (now : Q) :
  let dt := (now - prev_time self)%Q in
  let r := calculate_dynamics self center area now in
  let past := removelast (area_history (fst r)) in
  let area_delta := (inject_Z area - mean past)%Q in
  let state := snd (snd r) in
  ~ (dt == 0)%Q ->
  (2 <= length (position_history (fst r)))%nat ->
  (2 <= length (area_history (fst r)))%nat ->
  last (area_history (fst r)) 0 = area /\
  (inject_Z 50 < area_delta -> state = "APPROACHING !!!")%Q /\
  (area_delta < inject_Z (-50) -> state = "Receding")%Q /\
  (inject_Z (-50) <= area_delta <= inject_Z 50 -> state = "Stationary")%Q /\
  (area_history self = [100; 100; 100; 100] ->
   (area = 160 -> (area_delta == inject_Z 60)%Q /\ state = "APPROACHING !!!") /\
   (area = 40 -> (area_delta == inject_Z (-60))%Q /\ state = "Receding") /\
   (area = 120 -> (area_delta == inject_Z 20)%Q /\ state = "Stationary")).
Proof.
  intros dt r past area_delta state Hdt Hpos Harea.
  assert (Hst : fst r = remember center area (set_prev_time now self)).
  { unfold r. now apply dynamics_state. }
  assert (Hstate : state = looming (Some area_delta)).
  { unfold state, r. rewrite Hst in Hpos.
    rewrite (dynamics_estimate self center area now Hdt Hpos). cbn [snd].
    unfold area_delta, past. rewrite Hst.
    cbn [remember set_prev_time area_history].
    rewrite np_mean_nonempty; [reflexivity |].
    rewrite removelast_length. rewrite Hst in Harea.
    cbn [remember set_prev_time area_history] in Harea. lia. }
  destruct (looming_cases area_delta) as (Hup & Hdown & Hmid).
  rewrite Hstate.
  split; [| split; [exact Hup | split; [exact Hdown | split; [exact Hmid |]]]].
  - rewrite Hst. cbn [remember set_prev_time area_history].
    apply deque_append_last. unfold HISTORY_LEN. lia.
  - intros Hhist.
    assert (Hpast : past = [100; 100; 100; 100]).
    { unfold past. rewrite Hst. cbn [remember set_prev_time area_history].
      rewrite Hhist. reflexivity. }
    unfold area_delta in *. rewrite Hpast in *.
    repeat split; subst area; reflexivity.
Qed.

Lemma C2_looming_witness :
  snd (snd (calculate_dynamics
              (Bench.running [(0, 0); (0, 0); (0, 0); (0, 0)] [100; 100; 100; 100] 0)
              (0, 0) 160 1))
  = "APPROACHING !!!".
Proof.
  refine (proj2 (proj1 (proj2 (proj2 (proj2 (proj2
    (C2_looming (Bench.running [(0, 0); (0, 0); (0, 0); (0, 0)] [100; 100; 100; 100] 0)
                (0, 0) 160 1 _ _ _)))) eq_refl) eq_refl)).
  - intro H. discriminate H.
  - simpl. lia.
  - simpl. lia.
Defined.

(** C5. A call with [dt == 0] returns speed 0 and state "Static" and
    leaves both history buffers as they were. *)
Theorem C5_zero_dt {Image : Type} (self : Retina Image)
    (center : Z * Z) (area : Z) (now : Q) :
  (now - prev_time self == 0)%Q ->
  let r := calculate_dynamics self center area now in
  snd r = (0%R, "Static") /\
  position_history (fst r) = position_history self /\
  area_history (fst r) = area_history self.
Proof.
  intros Hdt r. unfold r. rewrite dynamics_static by exact Hdt.
  repeat split.
Qed.

Lemma C5_zero_dt_witness :
  let r := calculate_dynamics (Bench.running [(1, 2)] [900] (7 # 2)) (5, 6) 1000 (7 # 2) in
  snd r = (0%R, "Static") /\
  position_history (fst r) = [(1, 2)] /\
  area_history (fst r) = [900].
Proof.
  apply (C5_zero_dt (Bench.running [(1, 2)] [900] (7 # 2)) (5, 6) 1000 (7 # 2)).
  reflexivity.
Defined.

Lemma Q2R_pos (q : Q) : (0 < q)%Q -> (0 < Q2R q)%R.
Proof.
  intros H. apply Qlt_Rlt in H.
  replace (Q2R 0) with 0%R in H by (unfold Q2R; simpl; lra).
  exact H.
Qed.

Lemma dynamics_cases {Image : Type} (self : Retina Image)
    (center : Z * Z) (area : Z) (now : Q) :
  let dt := (now - prev_time self)%Q in
  let buf := deque_append HISTORY_LEN (position_history self) center in
  let r := calculate_dynamics self center area now in
  ((dt == 0)%Q /\ snd r = (0%R, "Static")) \/
  (~ (dt == 0)%Q /\ (length buf < 2)%nat /\ snd r = (0%R, "Analyzing...")) \/
  (~ (dt == 0)%Q /\ (2 <= length buf)%nat /\
   In (snd (snd r)) looming_states /\
   exists d : R,
     (0 <= d)%R /\
     fst (snd r) = (d * Q2R PIXEL_TO_METER_METRIC / (Q2R dt * INR (length buf)))%R).
Proof.
  intros dt buf r.
  destruct (Qeq_dec dt 0) as [Hz | Hnz].
  - left. split; [exact Hz |]. unfold r. now rewrite dynamics_static.
  - right. destruct (Nat.ltb_spec (length buf) 2) as [Hlt | Hge].
    + left. repeat split; try assumption.
      unfold r, calculate_dynamics. fold dt.
      destruct (Qeq_bool dt 0) eqn:E; [apply Qeq_bool_eq in E; contradiction |].
      cbn [remember set_prev_time position_history]. fold buf.
      destruct (Nat.ltb_spec (length buf) 2); [reflexivity | lia].
    + right. repeat split; try assumption.
      * unfold r. rewrite (dynamics_estimate self center area now Hnz Hge).
        cbn [snd]. apply looming_in_range.
      * unfold r. rewrite (dynamics_estimate self center area now Hnz Hge).
        cbn [fst snd]. eexists. split; [apply sqrt_pos | reflexivity].
Qed.

(** C6, as the code has it.  The returned state is one of five strings:
    "Static" (the [dt == 0] guard), "Analyzing..." (fewer than two
    samples), and the three looming states, which are the only ones
    returned once [dt <> 0] and two positions are buffered.  The speed is
    non-negative whenever the clock reading is not earlier than the
    previous one. *)
Theorem C6_estimate_range {Image : Type} (self : Retina Image)
    (center : Z * Z) (area : Z) (now : Q) :
  let dt := (now - prev_time self)%Q in
  let r := calculate_dynamics self center area now in
  In (snd (snd r)) motion_states /\
  (~ (dt == 0)%Q -> (2 <= length (position_history (fst r)))%nat ->
   In (snd (snd r)) looming_states) /\
  ((prev_time self <= now)%Q -> (0 <= fst (snd r))%R).
Proof.
  intros dt r.
  destruct (dynamics_cases self center area now)
    as [[Hz Hr] | [(Hnz & Hlt & Hr) | (Hnz & Hge & Hin & d & Hd & Hr)]];
    fold dt in Hz || fold dt in Hnz; fold r in Hr.
  - rewrite Hr. cbn [fst snd]. repeat split.
    + unfold motion_states. simpl. tauto.
    + intros Hnz. contradiction.
    + intros _. lra.
  - rewrite Hr. cbn [fst snd]. repeat split.
    + unfold motion_states. simpl. tauto.
    + intros _ Hlen. unfold r in Hlen.
      rewrite dynamics_state in Hlen by exact Hnz.
      cbn [remember set_prev_time position_history] in Hlen. lia.
    + intros _. lra.
  - fold r in Hin. repeat split.
    + unfold motion_states. unfold looming_states in Hin.
      simpl in *. tauto.
    + intros _ _. exact Hin.
    + intros Hle. rewrite Hr.
      assert (Hdt : (0 < Q2R dt)%R).
      { apply Q2R_pos. apply Qle_lteq in Hle. destruct Hle as [Hlt | Heq].
        - unfold dt. now apply (proj1 (Qlt_minus_iff _ _)).
        - exfalso. apply Hnz. unfold dt. rewrite Heq. ring. }
      assert (Hn : (0 < INR (length (deque_append HISTORY_LEN (position_history self) center)))%R).
      { apply lt_0_INR. lia. }
      assert (Hk : (0 < Q2R PIXEL_TO_METER_METRIC)%R).
      { rewrite calibration_constant. lra. }
      apply Rmult_le_pos.
      * apply Rmult_le_pos; [exact Hd | lra].
      * left. apply Rinv_0_lt_compat. now apply Rmult_lt_0_compat.
Qed.

Lemma C6_estimate_range_witness :
  let r := calculate_dynamics (Bench.running [(0, 0)] [100] 0) (3, 4) 100 1 in
  In (snd (snd r)) looming_states /\ (0 <= fst (snd r))%R.
Proof.
  pose proof (C6_estimate_range (Bench.running [(0, 0)] [100] 0) (3, 4) 100 1)
    as (_ & Hst & Hsp).
  split.
  - apply Hst; [intro H; discriminate H | simpl; lia].
  - apply Hsp. discriminate.
Defined.

(** C6 as stated fails: the first call after start-up, with a clock that
    has advanced, returns "Analyzing...", which is none of the three
    looming states. *)
Lemma C6_counterexample :
  ~ (forall (self : Retina Bench.Scene) (center : Z * Z) (area : Z) (now : Q),
       let r := calculate_dynamics self center area now in
       (0 <= fst (snd r))%R /\ In (snd (snd r)) looming_states).
Proof.
  intros H. specialize (H (init 0%Q) (0, 0) 1000 1%Q). destruct H as [_ H].
  change (In "Analyzing..." looming_states) in H.
  unfold looming_states in H. simpl in H.
  destruct H as [H | [H | [H | []]]]; discriminate H.
Qed.

(** With the clock set back between two calls the speed is negative. *)
Example backward_clock_negative_speed :
  Rlt (fst (snd (calculate_dynamics (Bench.running [(0, 0)] [100] 1) (3, 4) 100 0))) 0%R.
Proof.
  rewrite (dynamics_estimate (Bench.running [(0, 0)] [100] 1) (3, 4) 100 0);
    [| intro H; discriminate H | simpl; lia].
  cbn [fst]. rewrite calibration_constant.
  assert (Hs : (0 < sqrt (IZR ((3 - 0) ^ 2 + (4 - 0) ^ 2)))%R).
  { apply sqrt_lt_R0. simpl. lra. }
  simpl in *.
  replace (Q2R (0 - 1)) with (-1)%R by (unfold Q2R; simpl; lra).
  revert Hs. generalize (sqrt 25). intros x Hx. lra.
Qed.

(** ** Blob selection *)

Section Selection.

Context {Image Contour : Type} {cv : Vision Image Contour}.

Lemma consider_spec (acc : option Contour * Q) (cnt : Contour) :
  ((inject_Z MIN_AREA < contourArea cnt)%Q /\ (snd acc < contourArea cnt)%Q /\
   consider acc cnt = (Some cnt, contourArea cnt)) \/
  (((contourArea cnt <= inject_Z MIN_AREA)%Q \/ (contourArea cnt <= snd acc)%Q) /\
   consider acc cnt = acc).
Proof.
  unfold consider.
  destruct (Qgtb (contourArea cnt) (inject_Z MIN_AREA)) eqn:E1.
  - destruct (Qgtb (contourArea cnt) (snd acc)) eqn:E2; simpl.
    + left. apply Qgtb_true in E1. apply Qgtb_true in E2. auto.
    + right. apply Qgtb_false in E2. auto.
  - right. apply Qgtb_false in E1. simpl. auto.
Qed.

Lemma chosen_step (seen : list Contour) (acc : option Contour * Q) (cnt : Contour) :
  chosen seen acc -> chosen (seen ++ [cnt]) (consider acc cnt).
Proof.
  intros Hacc.
  destruct (consider_spec acc cnt) as [(Hmin & Hmax & ->) | [Hno ->]].
  - (* the new contour becomes the focus *)
    unfold chosen. cbn [fst snd]. split; [reflexivity | split; [exact Hmin |]].
    exists seen, []. split; [reflexivity | split; [| intros c' []]].
    intros c' Hin. unfold chosen in Hacc.
    destruct acc as [[c0 |] m]; cbn [fst snd] in *.
    + destruct Hacc as (Hm & _ & l1 & l2 & -> & Hl1 & Hl2). subst m.
      apply in_app_or in Hin. destruct Hin as [Hin | [<- | Hin]].
      * eapply Qlt_trans; [apply Hl1, Hin | exact Hmax].
      * exact Hmax.
      * eapply Qle_lt_trans; [apply Hl2, Hin | exact Hmax].
    + destruct Hacc as [_ Hall].
      eapply Qle_lt_trans; [apply Hall, Hin | exact Hmin].
  - (* the focus is kept *)
    unfold chosen in *. destruct acc as [[c0 |] m]; cbn [fst snd] in *.
    + destruct Hacc as (Hm & Hc0 & l1 & l2 & -> & Hl1 & Hl2). subst m.
      split; [reflexivity | split; [exact Hc0 |]].
      exists l1, (l2 ++ [cnt]). split; [| split; [exact Hl1 |]].
      * rewrite <- app_assoc. reflexivity.
      * intros c' Hin. apply in_app_or in Hin. destruct Hin as [Hin | [<- | []]].
        -- apply Hl2, Hin.
        -- destruct Hno as [Hle | Hle]; [| exact Hle].
           apply Qlt_le_weak. eapply Qle_lt_trans; [exact Hle | exact Hc0].
    + destruct Hacc as [Hm Hall]. subst m. split; [reflexivity |].
      intros c Hin. apply in_app_or in Hin. destruct Hin as [Hin | [<- | []]].
      * apply Hall, Hin.
      * destruct Hno as [Hle | Hle]; [exact Hle |].
        eapply Qle_trans; [exact Hle | discriminate].
Qed.

Lemma chosen_fold (contours : list Contour) :
  chosen contours (fold_left consider contours (None, 0%Q)).
Proof.
  induction contours as [| cnt seen IH] using rev_ind.
  - unfold chosen. simpl. split; [reflexivity | intros c []].
  - rewrite fold_left_app. simpl. now apply chosen_step.
Qed.

Lemma select_focus_some (contours : list Contour) (c : Contour) :
  select_focus contours = Some c ->
  (inject_Z MIN_AREA < contourArea c)%Q /\
  exists l1 l2,
    contours = l1 ++ c :: l2 /\
    (forall c', In c' l1 -> (contourArea c' < contourArea c)%Q) /\
    (forall c', In c' l2 -> (contourArea c' <= contourArea c)%Q).
Proof.
  unfold select_focus. intros Hsel.
  pose proof (chosen_fold contours) as H. unfold chosen in H.
  rewrite Hsel in H. destruct H as (_ & Hmin & Hrest). auto.
Qed.

Lemma select_focus_none (contours : list Contour) :
  select_focus contours = None <->
  forall c, In c contours -> (contourArea c <= inject_Z MIN_AREA)%Q.
Proof.
  unfold select_focus. split.
  - intros Hsel. pose proof (chosen_fold contours) as H. unfold chosen in H.
    rewrite Hsel in H. apply H.
  - intros Hall.
    destruct (fst (fold_left consider contours (None, 0%Q))) as [c |] eqn:E;
      [| reflexivity].
    apply select_focus_some in E. destruct E as (Hmin & l1 & l2 & -> & _).
    exfalso. apply (Qlt_not_le _ _ Hmin). apply Hall.
    apply in_or_app. right. left. reflexivity.
Qed.

End Selection.

(** ** One cycle of the loop *)

Section Cycle.

Context {Image Contour : Type}.
Context {contrast : ContrastOps Image} {cv : Vision Image Contour}.

Lemma cycle_seeding (self : Retina Image) (frame : Image) (now : Q) :
  avg_frame self = None ->
  cycle self frame now
  = (set_avg_frame (Some (astype_float (retinal_input frame))) self, None).
Proof.
  intros Havg. unfold cycle. rewrite Havg. reflexivity.
Qed.

Lemma cycle_no_focus (self : Retina Image) (avg frame : Image) (now : Q) :
  avg_frame self = Some avg ->
  let gray := retinal_input frame in
  select_focus (foreground gray (adapt gray avg)) = None ->
  cycle self frame now
  = (clear_memory (set_avg_frame (Some (adapt gray avg)) self),
     Some (mkShown (frame, None) (mimic_ganglion_cells gray))).
Proof.
  intros Havg gray Hsel. unfold cycle. rewrite Havg.
  fold (retinal_input frame). fold gray. rewrite Hsel. reflexivity.
Qed.

Lemma cycle_focus (self : Retina Image) (avg frame : Image) (now : Q)
    (focus_cnt : Contour) :
  avg_frame self = Some avg ->
  let gray := retinal_input frame in
  select_focus (foreground gray (adapt gray avg)) = Some focus_cnt ->
  cycle self frame now
  = (fst (attend (set_avg_frame (Some (adapt gray avg)) self) frame focus_cnt now),
     Some (mkShown
             (frame,
              Some (snd (attend (set_avg_frame (Some (adapt gray avg)) self)
                                frame focus_cnt now)))
             (mimic_ganglion_cells gray))).
Proof.
  intros Havg gray Hsel. unfold cycle. rewrite Havg.
  fold (retinal_input frame). fold gray. rewrite Hsel.
  destruct (attend _ frame focus_cnt now) as [s ann]. reflexivity.
Qed.

Lemma attend_spec (self : Retina Image) (frame : Image) (focus_cnt : Contour)
    (now : Q) :
  let B := map_to_screen (shape frame) (boundingRect focus_cnt) in
  let r := calculate_dynamics self (center_point B) (object_area B) now in
  fst (attend self frame focus_cnt now) = fst r /\
  ann_speed (snd (attend self frame focus_cnt now)) = fst (snd r) /\
  ann_state (snd (attend self frame focus_cnt now)) = snd (snd r) /\
  ann_color (snd (attend self frame focus_cnt now))
  = color_of (is_danger (fst (snd r)) (snd (snd r))) /\
  ann_trail (snd (attend self frame focus_cnt now))
  = trail (position_history (fst r)).
Proof.
  intros B r. unfold attend. fold B.
  destruct B as [[[X Y] W] H]. fold r.
  destruct r as [s [speed motion_state]]. cbn. repeat split.
Qed.

End Cycle.

(** ** Blob extractor: claims *)

(** C4. A connected component whose area is below the minimum of 800
    low-resolution pixels is never the focus; when every component is
    below it there is no focus and the cycle emits no focus region.  A
    single blob of area 799 is rejected, a single blob of area 801 is
    accepted, by the selection and by the cycle that runs it. *)
Theorem C4_min_area_filter {Image Contour : Type}
    {contrast : ContrastOps Image} {cv : Vision Image Contour} :
  (forall contours c,
     In c contours -> (contourArea c < inject_Z 800)%Q ->
     select_focus contours <> Some c) /\
  (forall contours,
     (forall c, In c contours -> (contourArea c < inject_Z 800)%Q) ->
     select_focus contours = None) /\
  (forall c, (contourArea c == inject_Z 799)%Q -> select_focus [c] = None) /\
  (forall c, (contourArea c == inject_Z 801)%Q -> select_focus [c] = Some c) /\
  (forall (self : Retina Image) avg frame now c,
     avg_frame self = Some avg ->
     foreground (retinal_input frame) (adapt (retinal_input frame) avg) = [c] ->
     ((contourArea c == inject_Z 799)%Q ->
      focus_emitted (snd (cycle self frame now)) = false) /\
     ((contourArea c == inject_Z 801)%Q ->
      focus_emitted (snd (cycle self frame now)) = true)).
Proof.
  assert (H799 : forall c : Contour,
             (contourArea c == inject_Z 799)%Q -> select_focus [c] = None).
  { intros c Hc. apply select_focus_none. intros c' [<- | []].
    rewrite Hc. discriminate. }
  assert (H801 : forall c : Contour,
             (contourArea c == inject_Z 801)%Q -> select_focus [c] = Some c).
  { intros c Hc. unfold select_focus. simpl.
    destruct (consider_spec (None, 0%Q) c) as [(_ & _ & ->) | [[Hle | Hle] _]].
    - reflexivity.
    - exfalso. rewrite Hc in Hle. now apply Hle.
    - exfalso. cbn [snd] in Hle. rewrite Hc in Hle. now apply Hle. }
  split; [| split; [| split; [exact H799 | split; [exact H801 |]]]].
  - intros contours c Hin Hlt Hsel.
    apply select_focus_some in Hsel. destruct Hsel as [Hmin _].
    apply (Qlt_irrefl (contourArea c)).
    eapply Qlt_trans; [exact Hlt | exact Hmin].
  - intros contours Hall. apply select_focus_none. intros c Hin.
    apply Qlt_le_weak. apply Hall, Hin.
  - intros self avg frame now c Havg Hfg. split; intros Hc.
    + rewrite (cycle_no_focus self avg frame now Havg).
      * reflexivity.
      * rewrite Hfg. now apply H799.
    + rewrite (cycle_focus self avg frame now c Havg).
      * reflexivity.
      * rewrite Hfg. now apply H801.
Qed.

Lemma C4_min_area_filter_witness :
  focus_emitted
    (snd (cycle (Bench.running [] [] 0)
                (Bench.vga [(inject_Z 799, (10, 10, 40, 30))]) 1)) = false /\
  focus_emitted
    (snd (cycle (Bench.running [] [] 0)
                (Bench.vga [(inject_Z 801, (10, 10, 40, 30))]) 1)) = true.
Proof.
  split.
  - refine (proj1 (proj2 (proj2 (proj2 (proj2 C4_min_area_filter)))
                     (Bench.running [] [] 0) (Bench.vga [])
                     (Bench.vga [(inject_Z 799, (10, 10, 40, 30))]) 1%Q
                     (inject_Z 799, (10, 10, 40, 30)) _ _) _);
      reflexivity.
  - refine (proj2 (proj2 (proj2 (proj2 (proj2 C4_min_area_filter)))
                     (Bench.running [] [] 0) (Bench.vga [])
                     (Bench.vga [(inject_Z 801, (10, 10, 40, 30))]) 1%Q
                     (inject_Z 801, (10, 10, 40, 30)) _ _) _);
      reflexivity.
Defined.

(** C9. The focus, when there is one, is the first contour in enumeration
    order that attains the largest area: every contour before it is
    strictly smaller, none after it is larger.  A focus exists as soon as
    one contour exceeds the minimum area, and of two qualifying contours
    of equal area the first is taken. *)
Theorem C9_first_of_ties {Image Contour : Type} {cv : Vision Image Contour}
    (contours : list Contour) :
  (forall c,
     select_focus contours = Some c ->
     exists l1 l2,
       contours = l1 ++ c :: l2 /\
       (forall c', In c' l1 -> (contourArea c' < contourArea c)%Q) /\
       (forall c', In c' l2 -> (contourArea c' <= contourArea c)%Q)) /\
  ((exists c, In c contours /\ (inject_Z MIN_AREA < contourArea c)%Q) ->
   exists c, select_focus contours = Some c) /\
  (forall a b,
     contours = [a; b] ->
     (contourArea a == contourArea b)%Q ->
     (inject_Z MIN_AREA < contourArea a)%Q ->
     select_focus contours = Some a).
Proof.
  split; [| split].
  - intros c Hsel. now apply select_focus_some in Hsel.
  - intros (c & Hin & Hmin).
    destruct (select_focus contours) as [c0 |] eqn:E; [now exists c0 |].
    exfalso. apply (Qlt_not_le _ _ Hmin).
    exact (proj1 (select_focus_none contours) E c Hin).
  - intros a b -> Heq Hmin. unfold select_focus. simpl.
    destruct (consider_spec (None, 0%Q) a) as [(_ & _ & ->) | [[Hle | Hle] _]].
    + destruct (consider_spec (Some a, contourArea a) b)
        as [(_ & Hlt & _) | [_ ->]]; [| reflexivity].
      exfalso. cbn [snd] in Hlt. rewrite Heq in Hlt.
      exact (Qlt_irrefl _ Hlt).
    + exfalso. exact (Qlt_not_le _ _ Hmin Hle).
    + exfalso. cbn [snd] in Hle. apply (Qlt_not_le _ _ Hmin).
      eapply Qle_trans; [exact Hle | discriminate].
Qed.

Lemma C9_first_of_ties_witness :
  @select_focus Bench.Scene Bench.Blob Bench.vision
    [(inject_Z 900, (0, 0, 30, 30)); (inject_Z 900, (100, 100, 30, 30))]
  = Some (inject_Z 900, (0, 0, 30, 30)).
Proof.
  apply (proj2 (proj2 (C9_first_of_ties
           [(inject_Z 900, (0, 0, 30, 30)); (inject_Z 900, (100, 100, 30, 30))]))
           (inject_Z 900, (0, 0, 30, 30)) (inject_Z 900, (100, 100, 30, 30))
           eq_refl).
  - reflexivity.
  - reflexivity.
Defined.

(** ** History buffers along a run *)

Section Histories.

Context {Image Contour : Type}.
Context {contrast : ContrastOps Image} {cv : Vision Image Contour}.

Lemma dynamics_bounded (self : Retina Image) center area now :
  (length (position_history self) <= HISTORY_LEN)%nat ->
  (length (area_history self) <= HISTORY_LEN)%nat ->
  (length (position_history (fst (calculate_dynamics self center area now)))
   <= HISTORY_LEN)%nat /\
  (length (area_history (fst (calculate_dynamics self center area now)))
   <= HISTORY_LEN)%nat.
Proof.
  intros Hp Ha. destruct (Qeq_dec (now - prev_time self) 0) as [Hz | Hnz].
  - rewrite dynamics_static by exact Hz. cbn. auto.
  - rewrite dynamics_state by exact Hnz. cbn.
    split; now apply deque_append_length.
Qed.

Lemma dynamics_avg_frame (self : Retina Image) center area now :
  avg_frame (fst (calculate_dynamics self center area now)) = avg_frame self.
Proof.
  destruct (Qeq_dec (now - prev_time self) 0) as [Hz | Hnz].
  - now rewrite dynamics_static.
  - now rewrite dynamics_state.
Qed.

Lemma tracker_calls_bounded (calls : list (Z * Z * Z * Q)) (self : Retina Image) :
  (length (position_history self) <= HISTORY_LEN)%nat ->
  (length (area_history self) <= HISTORY_LEN)%nat ->
  (length (position_history (tracker_calls self calls)) <= HISTORY_LEN)%nat /\
  (length (area_history (tracker_calls self calls)) <= HISTORY_LEN)%nat.
Proof.
  revert self. induction calls as [| [[center area] now] calls IH];
    intros self Hp Ha.
  - simpl. auto.
  - simpl. destruct (dynamics_bounded self center area now Hp Ha) as [Hp' Ha'].
    now apply IH.
Qed.

Lemma init_tidy (t0 : Q) : tidy (@init Image t0).
Proof.
  unfold tidy, init. simpl. repeat split; lia.
Qed.

Lemma cycle_tidy (self : Retina Image) (frame : Image) (now : Q) :
  tidy self -> tidy (fst (cycle self frame now)).
Proof.
  intros (Hp & Ha & Hnone).
  destruct (avg_frame self) as [avg |] eqn:Havg.
  - destruct (select_focus (foreground (retinal_input frame)
                                       (adapt (retinal_input frame) avg)))
      as [c |] eqn:Hsel.
    + rewrite (cycle_focus self avg frame now c Havg Hsel). cbn [fst].
      destruct (attend_spec (set_avg_frame (Some (adapt (retinal_input frame) avg)) self)
                            frame c now) as (-> & _).
      unfold tidy. rewrite dynamics_avg_frame.
      split; [| split; [| intros Hn; discriminate Hn]];
        now apply dynamics_bounded.
    + rewrite (cycle_no_focus self avg frame now Havg Hsel).
      unfold tidy. cbn. repeat split; lia.
  - rewrite (cycle_seeding self frame now Havg).
    unfold tidy. cbn.
    split; [exact Hp | split; [exact Ha | intros Hn; discriminate Hn]].
Qed.

Lemma process_tidy (feed : list (Image * Q * bool)) (self : Retina Image) :
  tidy self -> tidy (fst (process_visual_field self feed)).
Proof.
  revert self. induction feed as [| [[frame now] quit] rest IH]; intros self Hs.
  - exact Hs.
  - simpl. pose proof (cycle_tidy self frame now Hs) as Hc.
    destruct (cycle self frame now) as [s' [out |]]; cbn [fst] in Hc.
    + destruct quit; [exact Hc |].
      specialize (IH s' Hc).
      destruct (process_visual_field s' rest) as [s'' outs]. exact IH.
    + now apply IH.
Qed.

Lemma cycle_without_focus_clears (self : Retina Image) (frame : Image) (now : Q) :
  tidy self ->
  focus_emitted (snd (cycle self frame now)) = false ->
  position_history (fst (cycle self frame now)) = [] /\
  area_history (fst (cycle self frame now)) = [].
Proof.
  intros (_ & _ & Hnone) Hout.
  destruct (avg_frame self) as [avg |] eqn:Havg.
  - destruct (select_focus (foreground (retinal_input frame)
                                       (adapt (retinal_input frame) avg)))
      as [c |] eqn:Hsel.
    + rewrite (cycle_focus self avg frame now c Havg Hsel) in Hout.
      discriminate Hout.
    + rewrite (cycle_no_focus self avg frame now Havg Hsel). cbn. auto.
  - rewrite (cycle_seeding self frame now Havg). cbn. now apply Hnone.
Qed.

End Histories.

(** C3. Started from [__init__], after any number of tracker calls, and
    after any run of the frame loop, the position and the area buffer each
    hold at most 5 entries; and any further cycle of such a run that emits
    no focus region leaves both buffers with length 0. *)
Theorem C3_history_bounded {Image Contour : Type}
    {contrast : ContrastOps Image} {cv : Vision Image Contour} (t0 : Q) :
  (forall calls,
     let s := tracker_calls (@init Image t0) calls in
     (length (position_history s) <= 5)%nat /\
     (length (area_history s) <= 5)%nat) /\
  (forall feed,
     let s := fst (process_visual_field (init t0) feed) in
     (length (position_history s) <= 5)%nat /\
     (length (area_history s) <= 5)%nat /\
     forall frame now,
       focus_emitted (snd (cycle s frame now)) = false ->
       length (position_history (fst (cycle s frame now))) = 0%nat /\
       length (area_history (fst (cycle s frame now))) = 0%nat).
Proof.
  change 5%nat with HISTORY_LEN. split.
  - intros calls s. apply tracker_calls_bounded; simpl; lia.
  - intros feed s.
    assert (Hs : tidy s) by (apply process_tidy, init_tidy).
    destruct Hs as (Hp & Ha & Hnone).
    split; [exact Hp | split; [exact Ha |]].
    intros frame now Hout.
    destruct (cycle_without_focus_clears s frame now) as [-> ->];
      [unfold tidy; auto | exact Hout | split; reflexivity].
Qed.

Lemma C3_history_bounded_witness :
  let feed :=
    [(Bench.vga [], 1%Q, false);
     (Bench.vga [(inject_Z 900, (10, 10, 40, 30))], 2%Q, false);
     (Bench.vga [(inject_Z 900, (12, 10, 40, 30))], 3%Q, false)] in
  let s := fst (process_visual_field (init 0) feed) in
  length (position_history s) = 2%nat /\
  length (position_history (fst (cycle s (Bench.vga []) 4))) = 0%nat /\
  length (area_history (fst (cycle s (Bench.vga []) 4))) = 0%nat.
Proof.
  intros feed s. split; [reflexivity |].
  apply (proj2 (proj2 (proj2 (C3_history_bounded 0) feed)) (Bench.vga []) 4%Q).
  reflexivity.
Defined.

(** ** Contrast filter *)

(** C7. The contrast filter is a function of the gray image alone, and
    what it computes reaches nothing but the second display layer: with
    any two implementations of its OpenCV calls, a cycle ends in the same
    retina state and shows the same annotated output frame, and so does a
    whole run of the loop; the layer it feeds is its value on the gray
    image.  The foreground contours and the blob selection do not take the
    filter as an argument at all. *)
Theorem C7_contrast_filter_isolated {Image Contour : Type}
    (k1 k2 : ContrastOps Image) (cv : Vision Image Contour) :
  (forall (self : Retina Image) frame now,
     fst (@cycle _ _ k1 cv self frame now) = fst (@cycle _ _ k2 cv self frame now) /\
     option_map display_frame (snd (@cycle _ _ k1 cv self frame now))
     = option_map display_frame (snd (@cycle _ _ k2 cv self frame now)) /\
     option_map ganglion_layer (snd (@cycle _ _ k1 cv self frame now))
     = option_map (fun _ => @mimic_ganglion_cells _ k1 (retinal_input frame))
                  (snd (@cycle _ _ k2 cv self frame now))) /\
  (forall feed (self : Retina Image),
     fst (@process_visual_field _ _ k1 cv self feed)
     = fst (@process_visual_field _ _ k2 cv self feed) /\
     map display_frame (snd (@process_visual_field _ _ k1 cv self feed))
     = map display_frame (snd (@process_visual_field _ _ k2 cv self feed))).
Proof.
  assert (Hcycle : forall (self : Retina Image) frame now,
    fst (@cycle _ _ k1 cv self frame now) = fst (@cycle _ _ k2 cv self frame now) /\
    option_map display_frame (snd (@cycle _ _ k1 cv self frame now))
    = option_map display_frame (snd (@cycle _ _ k2 cv self frame now)) /\
    option_map ganglion_layer (snd (@cycle _ _ k1 cv self frame now))
    = option_map (fun _ => @mimic_ganglion_cells _ k1 (retinal_input frame))
                 (snd (@cycle _ _ k2 cv self frame now))).
  { intros self frame now.
    destruct (avg_frame self) as [avg |] eqn:Havg.
    - destruct (select_focus (foreground (retinal_input frame)
                                         (adapt (retinal_input frame) avg)))
        as [c |] eqn:Hsel.
      + rewrite (@cycle_focus _ _ k1 cv self avg frame now c Havg Hsel).
        rewrite (@cycle_focus _ _ k2 cv self avg frame now c Havg Hsel).
        repeat split.
      + rewrite (@cycle_no_focus _ _ k1 cv self avg frame now Havg Hsel).
        rewrite (@cycle_no_focus _ _ k2 cv self avg frame now Havg Hsel).
        repeat split.
    - rewrite (@cycle_seeding _ _ k1 cv self frame now Havg).
      rewrite (@cycle_seeding _ _ k2 cv self frame now Havg).
      repeat split. }
  split; [exact Hcycle |].
  induction feed as [| [[frame now] quit] rest IH]; intros self.
  - split; reflexivity.
  - simpl. destruct (Hcycle self frame now) as (Hst & Hout & _).
    destruct (@cycle _ _ k1 cv self frame now) as [s1 o1].
    destruct (@cycle _ _ k2 cv self frame now) as [s2 o2].
    cbn [fst snd] in Hst, Hout. subst s2.
    destruct o1 as [out1 |], o2 as [out2 |]; try discriminate Hout.
    + injection Hout as Hout. destruct quit.
      * simpl. split; [reflexivity | now rewrite Hout].
      * destruct (IH s1) as [Hs Ho].
        destruct (@process_visual_field _ _ k1 cv s1 rest) as [t1 outs1].
        destruct (@process_visual_field _ _ k2 cv s1 rest) as [t2 outs2].
        cbn [fst snd] in *. split; [exact Hs |].
        simpl. now rewrite Hout, Ho.
    + apply IH.
Qed.

(** The two test filters differ on the layer they feed, and on nothing else. *)
Example contrast_layers_differ :
  option_map ganglion_layer
    (snd (@cycle _ _ Bench.contrast Bench.vision
            (Bench.running [] [] 0) (Bench.vga []) 1))
  <> option_map ganglion_layer
       (snd (@cycle _ _ Bench.blank Bench.vision
               (Bench.running [] [] 0) (Bench.vga []) 1)).
Proof.
  intros H. discriminate H.
Qed.

(** ** Motion classifier *)

Lemma Rgtb_true (a b : R) : Rgtb a b = true <-> (b < a)%R.
Proof.
  unfold Rgtb. destruct (Rgt_dec a b) as [H | H]; split; intros H';
    try reflexivity; try discriminate; unfold Rgt in *; tauto.
Qed.

(** C8. The danger flag depends on the speed and the motion state only:
    it is true exactly when the speed exceeds 50 or the state contains
    APPROACHING, which among the states the tracker returns is the
    approaching state alone.  Danger selects red, no danger green, and
    that is the colour the cycle draws with for the estimate it shows. *)
Theorem C8_motion_classifier {Image Contour : Type} {cv : Vision Image Contour} :
  (forall speed state,
     is_danger speed state = true
     <-> (50 < speed)%R \/ str_in "APPROACHING" state = true) /\
  (forall state,
     In state motion_states ->
     (str_in "APPROACHING" state = true <-> state = "APPROACHING !!!")) /\
  color_of true = RED /\ color_of false = GREEN /\ RED <> GREEN /\
  (forall (self : Retina Image) frame (c : Contour) now,
     let ann := snd (attend self frame c now) in
     ann_color ann = color_of (is_danger (ann_speed ann) (ann_state ann))).
Proof.
  split; [| split; [| split; [| split; [| split]]]].
  - intros speed state. unfold is_danger. rewrite orb_true_iff, Rgtb_true.
    reflexivity.
  - intros state H. unfold motion_states in H. simpl in H.
    destruct H as [<- | [<- | [<- | [<- | [<- | []]]]]]; split; intros H';
      try discriminate H'; reflexivity.
  - reflexivity.
  - reflexivity.
  - intros H. discriminate H.
  - intros self frame c now ann. unfold ann.
    destruct (attend_spec self frame c now) as (_ & -> & -> & -> & _).
    reflexivity.
Qed.

Lemma C8_motion_classifier_witness :
  str_in "APPROACHING" "APPROACHING !!!" = true /\
  is_danger 0 "APPROACHING !!!" = true.
Proof.
  pose proof (@C8_motion_classifier Bench.Scene Bench.Blob Bench.vision)
    as (Hd & Hs & _).
  assert (Happ : str_in "APPROACHING" "APPROACHING !!!" = true).
  { apply (Hs "APPROACHING !!!"); [simpl; tauto | reflexivity]. }
  split; [exact Happ |].
  apply Hd. right. exact Happ.
Defined.

(** ** Coordinate mapping and the two areas *)

(** Scenario of the coordinate mapping: a 640x480 frame doubles both axes. *)
Example map_to_screen_vga :
  map_to_screen (480, 640) (10, 10, 20, 20) = (20, 20, 40, 40).
Proof. reflexivity. Qed.

(** C10. In a cycle that finds a focus and whose clock has moved, the
    area appended to the history, and passed to the tracker for the
    looming state that the cycle shows, is [W * H]: the width and height
    of the bounding box, each multiplied by the frame-to-retina ratio of
    its axis (a float64 quotient, the product rounded to float64) and
    truncated.  The contour area is the quantity compared with
    the minimum of 800; it is not what enters the history. *)
Theorem C10_area_measures {Image Contour : Type}
    {contrast : ContrastOps Image} {cv : Vision Image Contour}
    (self : Retina Image) (avg frame : Image) (now : Q)
    (c : Contour) (x y w h : Z) :
  let gray := retinal_input frame in
  let running := set_avg_frame (Some (adapt gray avg)) self in
  let scale_x := int_truediv (snd (shape frame)) 320 in
  let scale_y := int_truediv (fst (shape frame)) 240 in
  let X := py_int (int_times_float x scale_x) in
  let Y := py_int (int_times_float y scale_y) in
  let W := py_int (int_times_float w scale_x) in
  let H := py_int (int_times_float h scale_y) in
  let s' := fst (cycle self frame now) in
  avg_frame self = Some avg ->
  select_focus (foreground gray (adapt gray avg)) = Some c ->
  boundingRect c = (x, y, w, h) ->
  ~ (now - prev_time self == 0)%Q ->
  (inject_Z 800 < contourArea c)%Q /\
  last (area_history s') 0 = W * H /\
  last (position_history s') (0, 0) = (X + W / 2, Y + H / 2) /\
  option_map (fun out => option_map ann_state (snd (display_frame out)))
             (snd (cycle self frame now))
  = Some (Some (snd (snd (calculate_dynamics running (X + W / 2, Y + H / 2)
                                             (W * H) now)))).
Proof.
  intros gray running scale_x scale_y X Y W H s' Havg Hsel Hbox Hdt.
  assert (HB : map_to_screen (shape frame) (boundingRect c) = (X, Y, W, H)).
  { rewrite Hbox. reflexivity. }
  pose proof (attend_spec running frame c now) as Hatt.
  rewrite HB in Hatt. cbn [center_point object_area] in Hatt.
  destruct Hatt as (Hst & _ & Hstate & _).
  split; [apply select_focus_some in Hsel; exact (proj1 Hsel) |].
  unfold s'. rewrite (cycle_focus self avg frame now c Havg Hsel).
  fold gray. fold running. cbn [fst snd display_frame option_map].
  rewrite Hst, Hstate.
  rewrite dynamics_state by exact Hdt.
  cbn [remember set_prev_time position_history area_history].
  repeat split; apply deque_append_last; unfold HISTORY_LEN; lia.
Qed.

Lemma C10_area_measures_witness :
  let blob : Bench.Blob := (inject_Z 801, (10, 10, 40, 30)) in
  let s' := fst (cycle (Bench.running [] [] 0) (Bench.vga [blob]) 1) in
  (contourArea blob == inject_Z 801)%Q /\
  last (area_history s') 0 = 4800 /\
  last (position_history s') (0, 0) = (60, 50).
Proof.
  intros blob s'.
  pose proof (C10_area_measures (Bench.running [] [] 0) (Bench.vga [])
                (Bench.vga [blob]) 1 blob 10 10 40 30) as H.
  cbv zeta in H.
  destruct H as (_ & Harea & Hpos & _); try reflexivity.
  - intro H. discriminate H.
  - split; [reflexivity | split; [exact Harea | exact Hpos]].
Defined.

(** * Further properties of the retina *)

(** ** The history as a sliding window *)

Lemma lastn_all {A : Type} (n : nat) (l : list A) :
  (length l <= n)%nat -> lastn n l = l.
Proof.
  intros H. unfold lastn. replace (length l - n)%nat with 0%nat by lia.
  reflexivity.
Qed.

Lemma lastn_length {A : Type} (n : nat) (l : list A) :
  length (lastn n l) = Nat.min n (length l).
Proof.
  unfold lastn. rewrite length_skipn. lia.
Qed.

Lemma lastn_app_lastn {A : Type} (n : nat) (l m : list A) :
  lastn n (lastn n l ++ m) = lastn n (l ++ m).
Proof.
  destruct (Nat.le_gt_cases (length l) n) as [Hle | Hgt].
  - now rewrite (lastn_all n l Hle).
  - unfold lastn at 1 3. rewrite !length_app, lastn_length.
    replace (Nat.min n (length l) + length m - n)%nat with (length m) by lia.
    replace (length l + length m - n)%nat
      with (length m + (length l - n))%nat by lia.
    rewrite <- skipn_skipn. f_equal. unfold lastn.
    rewrite skipn_app.
    replace (length l - n - length l)%nat with 0%nat by lia.
    reflexivity.
Qed.

Lemma deque_append_lastn {A : Type} (n : nat) (d : list A) (x : A) :
  (length d <= n)%nat -> deque_append n d x = lastn n (d ++ [x]).
Proof.
  intros Hd. unfold deque_append, lastn. rewrite length_app. simpl.
  destruct (Nat.ltb_spec n (length d + 1)) as [Hlt | Hge].
  - replace (length d + 1 - n)%nat with 1%nat by lia. reflexivity.
  - replace (length d + 1 - n)%nat with 0%nat by lia. reflexivity.
Qed.

Lemma deque_append_length_exact {A : Type} (n : nat) (d : list A) (x : A) :
  length (deque_append n d x)
  = if (n <? S (length d))%nat then length d else S (length d).
Proof.
  unfold deque_append. rewrite length_app. simpl.
  replace (length d + 1)%nat with (S (length d)) by lia.
  destruct (n <? S (length d))%nat.
  - destruct d; simpl; [reflexivity |]. rewrite length_app. simpl. lia.
  - rewrite length_app. simpl. lia.
Qed.

(** After any sequence of tracker calls whose clock readings all differ
    from the reading before them, each history holds the last five of the
    samples it held before followed by the samples passed in, in order:
    the oldest are evicted first and nothing is reordered. *)
Theorem history_sliding_window {Image : Type}
    (calls : list (Z * Z * Z * Q)) (self : Retina Image) :
  (length (position_history self) <= 5)%nat ->
  (length (area_history self) <= 5)%nat ->
  ticking (prev_time self) calls ->
  position_history (tracker_calls self calls)
  = lastn 5 (position_history self ++ map (fun c => fst (fst c)) calls) /\
  area_history (tracker_calls self calls)
  = lastn 5 (area_history self ++ map (fun c => snd (fst c)) calls).
Proof.
  revert self. induction calls as [| [[center area] now] rest IH];
    intros self Hp Ha Htick.
  - simpl. rewrite !app_nil_r, !lastn_all by assumption. auto.
  - destruct Htick as [Hdt Htick]. simpl.
    rewrite dynamics_state by exact Hdt.
    specialize (IH (remember center area (set_prev_time now self))).
    cbn [remember set_prev_time position_history area_history prev_time] in IH.
    destruct IH as [IHp IHa];
      try (apply (deque_append_length HISTORY_LEN); assumption);
      [exact Htick |].
    rewrite IHp, IHa.
    change HISTORY_LEN with 5%nat.
    rewrite !deque_append_lastn by assumption.
    rewrite !lastn_app_lastn, <- !app_assoc. auto.
Qed.

Lemma history_sliding_window_witness :
  position_history
    (tracker_calls (Bench.running [(0, 0); (1, 1); (2, 2); (3, 3)] [10; 11; 12; 13] 0)
                   [((4, 4), 14, 1%Q); ((5, 5), 15, 2%Q); ((6, 6), 16, 3%Q)])
  = [(2, 2); (3, 3); (4, 4); (5, 5); (6, 6)].
Proof.
  refine (proj1 (history_sliding_window
                   [((4, 4), 14, 1%Q); ((5, 5), 15, 2%Q); ((6, 6), 16, 3%Q)]
                   (Bench.running [(0, 0); (1, 1); (2, 2); (3, 3)] [10; 11; 12; 13] 0)
                   _ _ _)).
  - simpl. lia.
  - simpl. lia.
  - simpl. repeat split; intro H; discriminate H.
Defined.

(** ** The two histories stay in step *)

Section InStep.

Context {Image Contour : Type}.
Context {contrast : ContrastOps Image} {cv : Vision Image Contour}.

Lemma dynamics_in_step (self : Retina Image) center area now :
  length (position_history self) = length (area_history self) ->
  length (position_history (fst (calculate_dynamics self center area now)))
  = length (area_history (fst (calculate_dynamics self center area now))).
Proof.
  intros H. destruct (Qeq_dec (now - prev_time self) 0) as [Hz | Hnz].
  - rewrite dynamics_static by exact Hz. exact H.
  - rewrite dynamics_state by exact Hnz. cbn.
    rewrite !deque_append_length_exact, H. reflexivity.
Qed.

Lemma tracker_calls_in_step (calls : list (Z * Z * Z * Q)) (self : Retina Image) :
  length (position_history self) = length (area_history self) ->
  length (position_history (tracker_calls self calls))
  = length (area_history (tracker_calls self calls)).
Proof.
  revert self. induction calls as [| [[center area] now] rest IH]; intros self H.
  - exact H.
  - simpl. apply IH. now apply dynamics_in_step.
Qed.

Lemma cycle_in_step (self : Retina Image) (frame : Image) (now : Q) :
  length (position_history self) = length (area_history self) ->
  length (position_history (fst (cycle self frame now)))
  = length (area_history (fst (cycle self frame now))).
Proof.
  intros H. destruct (avg_frame self) as [avg |] eqn:Havg.
  - destruct (select_focus (foreground (retinal_input frame)
                                       (adapt (retinal_input frame) avg)))
      as [c |] eqn:Hsel.
    + rewrite (cycle_focus self avg frame now c Havg Hsel). cbn [fst].
      destruct (attend_spec (set_avg_frame (Some (adapt (retinal_input frame) avg)) self)
                            frame c now) as (-> & _).
      now apply dynamics_in_step.
    + rewrite (cycle_no_focus self avg frame now Havg Hsel). reflexivity.
  - rewrite (cycle_seeding self frame now Havg). exact H.
Qed.

Lemma process_in_step (feed : list (Image * Q * bool)) (self : Retina Image) :
  length (position_history self) = length (area_history self) ->
  length (position_history (fst (process_visual_field self feed)))
  = length (area_history (fst (process_visual_field self feed))).
Proof.
  revert self. induction feed as [| [[frame now] quit] rest IH]; intros self H.
  - exact H.
  - simpl. pose proof (cycle_in_step self frame now H) as Hc.
    destruct (cycle self frame now) as [s' [out |]]; cbn [fst] in Hc.
    + destruct quit; [exact Hc |].
      specialize (IH s' Hc).
      destruct (process_visual_field s' rest) as [s'' outs]. exact IH.
    + now apply IH.
Qed.

End InStep.

(** Along every run of the frame loop from start-up the position and the
    area history have the same length, so a tracker call made in such a
    state that leaves two positions buffered never averages an empty list
    of past areas: the mean is the mean of at least one area. *)
Theorem histories_in_step {Image Contour : Type}
    {contrast : ContrastOps Image} {cv : Vision Image Contour}
    (t0 : Q) (feed : list (Image * Q * bool)) :
  let s := fst (process_visual_field (init t0) feed) in
  length (position_history s) = length (area_history s) /\
  forall center area now,
    let s' := fst (calculate_dynamics s center area now) in
    (2 <= length (position_history s'))%nat ->
    np_mean (removelast (area_history s'))
    = Some (mean (removelast (area_history s'))).
Proof.
  intros s.
  assert (Hs : length (position_history s) = length (area_history s)).
  { unfold s. apply process_in_step. reflexivity. }
  split; [exact Hs |].
  intros center area now s' Hlen. apply np_mean_nonempty.
  rewrite removelast_length.
  pose proof (dynamics_in_step s center area now Hs) as H'.
  fold s' in H'. lia.
Qed.

Lemma histories_in_step_witness :
  let feed :=
    [(Bench.vga [], 1%Q, false);
     (Bench.vga [(inject_Z 900, (10, 10, 40, 30))], 2%Q, false)] in
  let s := fst (process_visual_field (init 0) feed) in
  let s' := fst (calculate_dynamics s (70, 50) 5000 3) in
  np_mean (removelast (area_history s')) = Some (mean (removelast (area_history s'))).
Proof.
  intros feed s s'.
  apply (proj2 (histories_in_step 0 feed) (70, 50) 5000 3%Q).
  simpl. lia.
Defined.

(** ** An object that does not move *)

Lemma Forall_deque_append {A : Type} (P : A -> Prop) (n : nat) (d : list A) (x : A) :
  Forall P d -> P x -> Forall P (deque_append n d x).
Proof.
  intros Hd Hx. unfold deque_append.
  assert (H : Forall P (d ++ [x])) by (apply Forall_app; auto).
  destruct (_ <? _)%nat; [| exact H].
  destruct (d ++ [x]); [exact H | now inversion H].
Qed.

Lemma Forall_removelast {A : Type} (P : A -> Prop) (l : list A) :
  Forall P l -> Forall P (removelast l).
Proof.
  induction l as [| a [| b l'] IH]; intros H; simpl; auto.
  inversion H; subst. constructor; auto.
Qed.

Lemma constant_hd {A : Type} (a dflt : A) (l : list A) :
  Forall (eq a) l -> l <> [] -> hd dflt l = a.
Proof.
  intros H Hne. destruct l; [congruence |]. now inversion H.
Qed.

Lemma constant_last {A : Type} (a dflt : A) (l : list A) :
  Forall (eq a) l -> l <> [] -> last l dflt = a.
Proof.
  induction l as [| b [| c l'] IH]; intros H Hne.
  - congruence.
  - now inversion H.
  - inversion H as [| ? ? _ Hrest]. change (last (c :: l') dflt = a).
    apply IH; [exact Hrest | discriminate].
Qed.

Lemma constant_sum (a : Z) (l : list Z) :
  Forall (eq a) l -> sumZ l = Z.of_nat (length l) * a.
Proof.
  induction 1 as [| b l' Hb _ IH]; [reflexivity |].
  subst b. unfold sumZ in *. cbn [fold_right length]. rewrite IH. lia.
Qed.

Lemma constant_mean (a : Z) (l : list Z) :
  Forall (eq a) l -> l <> [] -> (mean l == inject_Z a)%Q.
Proof.
  intros H Hne. unfold mean. rewrite (constant_sum a l H), inject_Z_mult.
  assert (Hn : ~ (inject_Z (Z.of_nat (length l)) == 0)%Q).
  { destruct l; [congruence |]. unfold Qeq. simpl. lia. }
  field. exact Hn.
Qed.

Lemma looming_of_zero (d : Q) : (d == 0)%Q -> looming (Some d) = "Stationary".
Proof.
  intros Hd. apply looming_cases. rewrite Hd. split; discriminate.
Qed.

(** When every buffered position equals the new center and every buffered
    area equals the new area (both histories non-empty), a call with
    [dt <> 0] returns speed 0 and "Stationary": an object that stays put
    is neither fast nor looming, whatever the time step. *)
Theorem steady_object_is_stationary {Image : Type} (self : Retina Image)
    (center : Z * Z) (area : Z) (now : Q) :
  ~ (now - prev_time self == 0)%Q ->
  position_history self <> [] ->
  area_history self <> [] ->
  Forall (eq center) (position_history self) ->
  Forall (eq area) (area_history self) ->
  snd (calculate_dynamics self center area now) = (0%R, "Stationary").
Proof.
  intros Hdt Hpne Hane Hpos Hareas.
  set (buf := deque_append HISTORY_LEN (position_history self) center).
  set (areas := deque_append HISTORY_LEN (area_history self) area).
  assert (Hbuf : Forall (eq center) buf) by (apply Forall_deque_append; auto).
  assert (Hars : Forall (eq area) areas) by (apply Forall_deque_append; auto).
  assert (Hlen : (2 <= length buf)%nat).
  { unfold buf. rewrite deque_append_length_exact. unfold HISTORY_LEN.
    destruct (position_history self); [congruence |].
    destruct (Nat.ltb_spec 5 (S (length (p :: l)))); simpl in *; lia. }
  assert (Hlena : (2 <= length areas)%nat).
  { unfold areas. rewrite deque_append_length_exact. unfold HISTORY_LEN.
    destruct (area_history self); [congruence |].
    destruct (Nat.ltb_spec 5 (S (length (z :: l)))); simpl in *; lia. }
  rewrite (dynamics_estimate self center area now Hdt Hlen). fold buf areas.
  assert (Hne : buf <> []) by (destruct buf; simpl in Hlen; [lia | discriminate]).
  rewrite (constant_hd center (0, 0) buf Hbuf Hne).
  rewrite (constant_last center (0, 0) buf Hbuf Hne).
  rewrite !Z.sub_diag. change (0 ^ 2 + 0 ^ 2) with 0.
  rewrite sqrt_0. unfold Rdiv. rewrite !Rmult_0_l.
  f_equal.
  assert (Hpast : removelast areas <> []).
  { intros E. apply (f_equal (@length Z)) in E.
    rewrite removelast_length in E. simpl in E. lia. }
  rewrite np_mean_nonempty.
  - cbn [option_map]. apply looming_of_zero.
    rewrite (constant_mean area (removelast areas));
      [ring | now apply Forall_removelast | exact Hpast].
  - destruct (removelast areas); [congruence | simpl; lia].
Qed.

Lemma steady_object_is_stationary_witness :
  snd (calculate_dynamics (Bench.running [(7, 7); (7, 7)] [900; 900] 0) (7, 7) 900 (1 # 3))
  = (0%R, "Stationary").
Proof.
  apply (steady_object_is_stationary
           (Bench.running [(7, 7); (7, 7)] [900; 900] 0) (7, 7) 900 (1 # 3)).
  - intro H. discriminate H.
  - discriminate.
  - discriminate.
  - repeat constructor.
  - repeat constructor.
Defined.

(** ** The tracking trail *)

Lemma trail_ends (ps : list (Z * Z)) :
  map fst (trail ps) = removelast ps /\ map snd (trail ps) = tl ps.
Proof.
  induction ps as [| p [| q ps'] IH]; try (split; reflexivity).
  destruct IH as [IH1 IH2].
  change (trail (p :: q :: ps')) with ((p, q) :: trail (q :: ps')).
  split.
  - change (removelast (p :: q :: ps')) with (p :: removelast (q :: ps')).
    cbn [map fst]. now rewrite IH1.
  - cbn [map snd tl]. now rewrite IH2.
Qed.

Section Shown.

Context {Image Contour : Type}.
Context {contrast : ContrastOps Image} {cv : Vision Image Contour}.

(** What is known of a cycle whose output frame carries an annotation. *)
Lemma cycle_annotated (self : Retina Image) (frame : Image) (now : Q)
    (ann : Annotation) :
  annotation_of (snd (cycle self frame now)) = Some ann ->
  exists avg c,
    avg_frame self = Some avg /\
    select_focus (foreground (retinal_input frame)
                             (adapt (retinal_input frame) avg)) = Some c /\
    ann = snd (attend (set_avg_frame (Some (adapt (retinal_input frame) avg)) self)
                      frame c now) /\
    fst (cycle self frame now)
    = fst (attend (set_avg_frame (Some (adapt (retinal_input frame) avg)) self)
                  frame c now).
Proof.
  intros Hann.
  destruct (avg_frame self) as [avg |] eqn:Havg.
  - destruct (select_focus (foreground (retinal_input frame)
                                       (adapt (retinal_input frame) avg)))
      as [c |] eqn:Hsel.
    + rewrite (cycle_focus self avg frame now c Havg Hsel) in *.
      cbn in Hann. injection Hann as <-. exists avg, c. auto.
    + rewrite (cycle_no_focus self avg frame now Havg Hsel) in Hann.
      discriminate Hann.
  - rewrite (cycle_seeding self frame now Havg) in Hann. discriminate Hann.
Qed.

End Shown.

(** The trail drawn in a cycle joins each buffered position to the next
    one: the segments start at the positions without the newest and end at
    the positions without the oldest.  Along a run from start-up it has at
    most four segments, and none when a single position is buffered. *)
Theorem trail_joins_history {Image Contour : Type}
    {contrast : ContrastOps Image} {cv : Vision Image Contour}
    (t0 : Q) (feed : list (Image * Q * bool)) (frame : Image) (now : Q)
    (ann : Annotation) :
  let s := fst (process_visual_field (init t0) feed) in
  annotation_of (snd (cycle s frame now)) = Some ann ->
  map fst (ann_trail ann) = removelast (position_history (fst (cycle s frame now))) /\
  map snd (ann_trail ann) = tl (position_history (fst (cycle s frame now))) /\
  (length (ann_trail ann) <= 4)%nat.
Proof.
  intros s Hann.
  destruct (cycle_annotated s frame now ann Hann)
    as (avg & c & Havg & Hsel & -> & Hst).
  pose proof (attend_spec (set_avg_frame (Some (adapt (retinal_input frame) avg)) s)
                          frame c now) as (Hs' & _ & _ & _ & Htrail).
  rewrite Htrail, <- Hs', <- Hst.
  destruct (trail_ends (position_history (fst (cycle s frame now)))) as [H1 H2].
  split; [exact H1 | split; [exact H2 |]].
  assert (Htidy : tidy (fst (cycle s frame now))).
  { apply cycle_tidy. unfold s. apply process_tidy, init_tidy. }
  destruct Htidy as (Hp & _).
  rewrite <- (length_map fst), H1, removelast_length.
  unfold HISTORY_LEN in Hp. lia.
Qed.

Lemma trail_joins_history_witness :
  let feed :=
    [(Bench.vga [], 1%Q, false);
     (Bench.vga [(inject_Z 900, (10, 10, 40, 30))], 2%Q, false)] in
  let s := fst (process_visual_field (init 0) feed) in
  let blob : Bench.Blob := (inject_Z 900, (12, 10, 40, 30)) in
  let ann := snd (attend s (Bench.vga [blob]) blob 3) in
  map fst (ann_trail ann) = [(60, 50)] /\ map snd (ann_trail ann) = [(64, 50)].
Proof.
  intros feed s blob ann.
  assert (Hann : annotation_of (snd (cycle s (Bench.vga [blob]) 3)) = Some ann)
    by reflexivity.
  destruct (trail_joins_history 0 feed (Bench.vga [blob]) 3%Q ann Hann)
    as (H1 & H2 & _).
  split; [exact H1 | exact H2].
Defined.

(** ** Coordinate mapping on whole multiples of the retina size *)

Lemma binade_int (a : Z) : 0 < a -> binade a 1 = Z.log2 a.
Proof.
  intros Ha. unfold binade. rewrite Z.log2_1, Z.sub_0_r.
  pose proof (Z.log2_nonneg a) as Hlog.
  rewrite (Z.max_l 0 (- Z.log2 a)) by lia.
  rewrite (Z.max_r 0 (Z.log2 a)) by lia.
  destruct (Z.ltb_spec (a * 2 ^ 0) (1 * 2 ^ Z.log2 a)) as [Hlt | _];
    [| reflexivity].
  pose proof (Z.log2_spec a Ha) as [Hlo _].
  rewrite Z.pow_0_r, Z.mul_1_r, Z.mul_1_l in Hlt. lia.
Qed.

Lemma nearest_even_int (n : Z) : nearest_even n 1 = n.
Proof.
  unfold nearest_even. rewrite Z.div_1_r, Z.mod_1_r. reflexivity.
Qed.

Lemma Qred_inject_Z (k : Z) : Qred (inject_Z k) = inject_Z k.
Proof.
  apply Qcanon.Qred_identity. simpl. apply Z.gcd_1_r.
Qed.

(** Rounding leaves an integer of less than 54 bits as it is. *)
Lemma round53_exact (q : Q) (k : Z) :
  (q == inject_Z k)%Q -> fits53 k -> round53 q = inject_Z k.
Proof.
  intros Hq Hk. unfold round53.
  rewrite (Qred_complete q (inject_Z k) Hq), Qred_inject_Z.
  cbn [Qnum Qden inject_Z].
  destruct (Z.eqb_spec k 0) as [-> | Hnz]; [reflexivity |].
  assert (Ha : 0 < Z.abs k) by lia.
  rewrite (binade_int _ Ha).
  assert (Hlog : Z.log2 (Z.abs k) < 53)
    by (apply Z.log2_lt_pow2; [exact Ha | exact Hk]).
  pose proof (Z.log2_nonneg (Z.abs k)) as Hlog0.
  set (s := 52 - Z.log2 (Z.abs k)).
  assert (Hs : 0 <= s) by (unfold s; lia).
  rewrite (Z.max_r 0 s) by lia. rewrite (Z.max_l 0 (- s)) by lia.
  change (2 ^ 0) with 1. rewrite Z.mul_1_r, nearest_even_int.
  fold (inject_Z k). rewrite <- (Qred_inject_Z k). apply Qred_complete.
  assert (Hpow : 0 < 2 ^ s) by (apply Z.pow_pos_nonneg; lia).
  unfold Qeq. cbn [Qnum Qden inject_Z].
  rewrite (Z2Pos.id _ Hpow).
  generalize (2 ^ s). intros t.
  rewrite <- (Z.abs_sgn k) at 3. ring.
Qed.

Lemma int_truediv_multiple (p : positive) (k : Z) :
  fits53 k -> int_truediv (Z.pos p * k) (Z.pos p) = inject_Z k.
Proof.
  intros Hk. unfold int_truediv. apply round53_exact; [| exact Hk].
  unfold Qeq, Qdiv, Qmult, Qinv, inject_Z. cbn [Qnum Qden].
  rewrite !Pos.mul_1_l. ring.
Qed.

Lemma int_times_float_exact (k a : Z) :
  fits53 a -> fits53 (k * a) ->
  int_times_float a (inject_Z k) = inject_Z (k * a).
Proof.
  intros Ha Hka. unfold int_times_float, float_of_int.
  rewrite (round53_exact (inject_Z a) a) by (reflexivity || exact Ha).
  apply round53_exact; [| exact Hka].
  rewrite inject_Z_mult. ring.
Qed.

Lemma py_int_inject_Z (n : Z) : py_int (inject_Z n) = n.
Proof.
  unfold py_int, inject_Z. cbn [Qnum Qden]. apply Z.quot_1_r.
Qed.

(** For a captured frame whose height and width are [ky] and [kx] times
    the retina's 240 and 320, the mapped box is the low-resolution box
    with every horizontal coordinate times [kx] and every vertical one
    times [ky], with no rounding loss; the area passed to the tracker is
    then [kx * ky] times the low-resolution box area.  The factors, the
    coordinates and their products are integers that float64 holds
    exactly (below 2^53 in magnitude). *)
Theorem map_to_screen_multiple (kx ky x y w h : Z) :
  fits53 kx -> fits53 ky ->
  fits53 x -> fits53 y -> fits53 w -> fits53 h ->
  fits53 (kx * x) -> fits53 (ky * y) -> fits53 (kx * w) -> fits53 (ky * h) ->
  map_to_screen (RETINA_H * ky, RETINA_W * kx) (x, y, w, h)
  = (kx * x, ky * y, kx * w, ky * h) /\
  object_area (map_to_screen (RETINA_H * ky, RETINA_W * kx) (x, y, w, h))
  = kx * ky * (w * h).
Proof.
  intros Hkx Hky Hx Hy Hw Hh Hxx Hyy Hww Hhh.
  assert (H : map_to_screen (RETINA_H * ky, RETINA_W * kx) (x, y, w, h)
              = (kx * x, ky * y, kx * w, ky * h)).
  { unfold map_to_screen, RETINA_H, RETINA_W. cbn [fst snd].
    rewrite !int_truediv_multiple by assumption.
    rewrite !int_times_float_exact by assumption.
    now rewrite !py_int_inject_Z. }
  split; [exact H |]. rewrite H. cbn [object_area]. ring.
Qed.

Lemma map_to_screen_multiple_witness :
  map_to_screen (720, 960) (10, 12, 20, 30) = (30, 36, 60, 90).
Proof.
  apply (map_to_screen_multiple 3 3 10 12 20 30); reflexivity.
Defined.

(** On a 448x336 frame the scale 1.4 is not a float64: the quotient is
    rounded down, and so are the products, which truncate to one pixel
    less than the exact ratio would give. *)
Example map_to_screen_rounds :
  map_to_screen (336, 448) (45, 45, 90, 45) = (62, 62, 125, 62) /\
  object_area (map_to_screen (336, 448) (45, 45, 90, 45)) = 7750 /\
  center_point (map_to_screen (336, 448) (45, 45, 90, 45)) = (124, 93).
Proof. repeat split. Qed.

(** ** Blob selection ignores what the filter rejects *)

(** The focus is the same whether or not the contours that fail the
    minimum-area test are in the list: small blobs never change the
    choice, wherever they sit in the enumeration. *)
Theorem select_focus_filter {Image Contour : Type} {cv : Vision Image Contour}
    (contours : list Contour) :
  select_focus contours = select_focus (filter qualifies contours).
Proof.
  unfold select_focus. f_equal.
  generalize (@None Contour, 0%Q).
  induction contours as [| c rest IH]; intros acc; [reflexivity |].
  cbn [filter fold_left]. destruct (qualifies c) eqn:E.
  - cbn [fold_left]. apply IH.
  - rewrite <- IH. f_equal. unfold consider. unfold qualifies in E.
    now rewrite E.
Qed.

(** ** Cycles in which the tracker takes a guard *)

Lemma no_danger_at_rest (state : string) :
  str_in "APPROACHING" state = false -> is_danger 0 state = false.
Proof.
  intros H. unfold is_danger. rewrite H, orb_false_r.
  destruct (Rgtb 0 50) eqn:E; [| reflexivity].
  apply Rgtb_true in E. lra.
Qed.

(** A cycle that finds a focus while the clock reading equals the
    previous one leaves both histories as they were and draws the box in
    green with speed 0 and state "Static", over the trail of the old
    history. *)
Theorem duplicate_timestamp_cycle {Image Contour : Type}
    {contrast : ContrastOps Image} {cv : Vision Image Contour}
    (self : Retina Image) (avg frame : Image) (now : Q) (c : Contour) :
  avg_frame self = Some avg ->
  select_focus (foreground (retinal_input frame)
                           (adapt (retinal_input frame) avg)) = Some c ->
  (now - prev_time self == 0)%Q ->
  position_history (fst (cycle self frame now)) = position_history self /\
  area_history (fst (cycle self frame now)) = area_history self /\
  exists ann,
    annotation_of (snd (cycle self frame now)) = Some ann /\
    ann_speed ann = 0%R /\ ann_state ann = "Static" /\
    ann_color ann = GREEN /\
    ann_trail ann = trail (position_history self).
Proof.
  intros Havg Hsel Hdt.
  rewrite (cycle_focus self avg frame now c Havg Hsel). cbn [fst snd annotation_of display_frame].
  set (running := set_avg_frame (Some (adapt (retinal_input frame) avg)) self).
  destruct (attend_spec running frame c now) as (Hs & Hsp & Hst & Hcol & Htr).
  rewrite dynamics_static in Hs, Hsp, Hst, Hcol, Htr by exact Hdt.
  cbn [fst snd] in *.
  rewrite Hs. split; [reflexivity | split; [reflexivity |]].
  eexists. split; [reflexivity |].
  rewrite Hsp, Hst, Hcol, Htr. repeat split.
  rewrite no_danger_at_rest; reflexivity.
Qed.

Lemma duplicate_timestamp_cycle_witness :
  let blob : Bench.Blob := (inject_Z 900, (10, 10, 40, 30)) in
  let self := Bench.running [(1, 1); (2, 2)] [4800; 4800] (5 # 2) in
  position_history (fst (cycle self (Bench.vga [blob]) (5 # 2))) = [(1, 1); (2, 2)].
Proof.
  intros blob self.
  refine (proj1 (duplicate_timestamp_cycle self (Bench.vga []) (Bench.vga [blob])
                   (5 # 2) blob _ _ _)); reflexivity.
Defined.

(** Along a run from start-up, an object that comes into focus in the
    cycle after one without a focus region is treated as new: with a clock
    that has moved, the cycle shows speed 0 and "Analyzing...", draws the
    box in green with no trail, and each history holds that one sample. *)
Theorem fresh_object_starts_over {Image Contour : Type}
    {contrast : ContrastOps Image} {cv : Vision Image Contour}
    (t0 : Q) (feed : list (Image * Q * bool))
    (frame1 frame2 : Image) (t1 t2 : Q) (ann : Annotation) :
  let s := fst (process_visual_field (init t0) feed) in
  let s1 := fst (cycle s frame1 t1) in
  let s2 := fst (cycle s1 frame2 t2) in
  focus_emitted (snd (cycle s frame1 t1)) = false ->
  annotation_of (snd (cycle s1 frame2 t2)) = Some ann ->
  ~ (t2 - prev_time s1 == 0)%Q ->
  ann_speed ann = 0%R /\ ann_state ann = "Analyzing..." /\
  ann_color ann = GREEN /\ ann_trail ann = [] /\
  length (position_history s2) = 1%nat /\ length (area_history s2) = 1%nat.
Proof.
  intros s s1 s2 Hno Hann Hdt.
  assert (Hs : tidy s) by (apply process_tidy, init_tidy).
  destruct (cycle_without_focus_clears s frame1 t1 Hs Hno) as [Hp Ha].
  fold s1 in Hp, Ha.
  destruct (cycle_annotated s1 frame2 t2 ann Hann)
    as (avg & c & Havg & Hsel & -> & Hst2).
  set (running := set_avg_frame (Some (adapt (retinal_input frame2) avg)) s1) in *.
  destruct (attend_spec running frame2 c t2) as (Hs' & Hsp & Hst & Hcol & Htr).
  set (B := map_to_screen (shape frame2) (boundingRect c)) in *.
  assert (Hrun : ~ (t2 - prev_time running == 0)%Q) by exact Hdt.
  assert (Hstate : fst (calculate_dynamics running (center_point B) (object_area B) t2)
                   = remember (center_point B) (object_area B) (set_prev_time t2 running))
    by (now apply dynamics_state).
  assert (Hest : snd (calculate_dynamics running (center_point B) (object_area B) t2)
                 = (0%R, "Analyzing...")).
  { destruct (dynamics_cases running (center_point B) (object_area B) t2)
      as [[Hz _] | [(_ & _ & Hr) | (_ & Hge & _)]].
    - contradiction.
    - exact Hr.
    - exfalso. unfold running in Hge. cbn [set_avg_frame position_history] in Hge.
      rewrite Hp in Hge. cbn in Hge. lia. }
  rewrite Hest in Hsp, Hst, Hcol. cbn [fst snd] in Hsp, Hst, Hcol.
  rewrite Hstate in Htr, Hs'.
  unfold s2. rewrite Hst2, Hs', Hsp, Hst, Hcol, Htr.
  unfold running. cbn [remember set_prev_time set_avg_frame position_history area_history].
  rewrite Hp, Ha. repeat split.
  rewrite no_danger_at_rest; reflexivity.
Qed.

Lemma fresh_object_starts_over_witness :
  let feed :=
    [(Bench.vga [], 1%Q, false);
     (Bench.vga [(inject_Z 900, (10, 10, 40, 30))], 2%Q, false);
     (Bench.vga [(inject_Z 900, (12, 10, 40, 30))], 3%Q, false)] in
  let s := fst (process_visual_field (init 0) feed) in
  let s1 := fst (cycle s (Bench.vga []) 4) in
  let blob : Bench.Blob := (inject_Z 2000, (100, 100, 50, 50)) in
  let ann := snd (attend s1 (Bench.vga [blob]) blob 5) in
  length (position_history s) = 2%nat /\
  ann_state ann = "Analyzing..." /\ ann_trail ann = [].
Proof.
  intros feed s s1 blob ann. split; [reflexivity |].
  assert (Hno : focus_emitted (snd (cycle s (Bench.vga []) 4)) = false)
    by reflexivity.
  assert (Hann : annotation_of (snd (cycle s1 (Bench.vga [blob]) 5)) = Some ann)
    by reflexivity.
  assert (Hdt : ~ (5 - prev_time s1 == 0)%Q) by (intro H; discriminate H).
  destruct (fresh_object_starts_over 0 feed (Bench.vga []) (Bench.vga [blob])
              4%Q 5%Q ann Hno Hann Hdt) as (_ & Hst & _ & Htr & _).
  split; [exact Hst | exact Htr].
Defined.

(** ** The loop as a whole *)

Section Loop.

Context {Image Contour : Type}.
Context {contrast : ContrastOps Image} {cv : Vision Image Contour}.

Lemma cycle_seeded (self : Retina Image) (avg frame : Image) (now : Q) :
  avg_frame self = Some avg ->
  avg_frame (fst (cycle self frame now)) = Some (adapt (retinal_input frame) avg) /\
  option_map (fun out => fst (display_frame out)) (snd (cycle self frame now))
  = Some frame.
Proof.
  intros Havg.
  destruct (select_focus (foreground (retinal_input frame)
                                     (adapt (retinal_input frame) avg)))
    as [c |] eqn:Hsel.
  - rewrite (cycle_focus self avg frame now c Havg Hsel). cbn [fst snd option_map].
    destruct (attend_spec (set_avg_frame (Some (adapt (retinal_input frame) avg)) self)
                          frame c now) as (-> & _).
    rewrite dynamics_avg_frame. split; reflexivity.
  - rewrite (cycle_no_focus self avg frame now Havg Hsel). split; reflexivity.
Qed.

Lemma process_seeded (feed : list (Image * Q * bool)) (self : Retina Image)
    (avg : Image) :
  avg_frame self = Some avg ->
  map (fun out => fst (display_frame out)) (snd (process_visual_field self feed))
  = map (fun e => fst (fst e)) (until_quit feed) /\
  avg_frame (fst (process_visual_field self feed))
  = Some (fold_left (fun a e => adapt (retinal_input (fst (fst e))) a)
                    (until_quit feed) avg) /\
  process_visual_field self feed = process_visual_field self (until_quit feed).
Proof.
  revert self avg. induction feed as [| [[frame now] quit] rest IH];
    intros self avg Havg.
  - simpl. auto.
  - destruct (cycle_seeded self avg frame now Havg) as [Havg' Hshow].
    cbn [until_quit process_visual_field].
    destruct (cycle self frame now) as [s' [out |]] eqn:E;
      cbn [fst snd option_map] in *; [| discriminate Hshow].
    injection Hshow as Hshow. destruct quit.
    + cbn [process_visual_field]. rewrite E. cbn. rewrite Hshow. auto.
    + destruct (IH s' _ Havg') as (IH1 & IH2 & IH3).
      cbn [process_visual_field]. rewrite E. rewrite <- IH3.
      destruct (process_visual_field s' rest) as [t outs].
      cbn [fst snd map fold_left] in *. rewrite Hshow, IH1. auto.
Qed.

(** From a retina that has no background yet, the first frame only seeds
    it: nothing is shown, the key is not read, and the run goes on with
    the rest of the feed. *)
Lemma process_unseeded (self : Retina Image) (frame : Image) (now : Q)
    (quit : bool) (rest : list (Image * Q * bool)) :
  avg_frame self = None ->
  process_visual_field self ((frame, now, quit) :: rest)
  = process_visual_field
      (set_avg_frame (Some (astype_float (retinal_input frame))) self) rest.
Proof.
  intros Havg. cbn [process_visual_field].
  rewrite (cycle_seeding self frame now Havg). reflexivity.
Qed.

End Loop.

(** A run started at [__init__] shows the frames it is fed, in order and
    once each, except the first, which only seeds the background, and
    stops after the first frame at which [q] is pressed: no later frame is
    shown or processed, and a key pressed during the first frame is not
    seen. *)
Theorem loop_shows_until_quit {Image Contour : Type}
    {contrast : ContrastOps Image} {cv : Vision Image Contour}
    (t0 : Q) (feed : list (Image * Q * bool)) :
  map (fun out => fst (display_frame out))
      (snd (process_visual_field (init t0) feed))
  = map (fun e => fst (fst e)) (until_quit (tl feed)) /\
  process_visual_field (init t0) feed
  = process_visual_field (init t0) (firstn 1 feed ++ until_quit (tl feed)).
Proof.
  destruct feed as [| [[frame now] quit] rest]; [split; reflexivity |].
  cbn [tl firstn app].
  rewrite !(process_unseeded (init t0)) by reflexivity.
  destruct (process_seeded rest
              (set_avg_frame (Some (astype_float (retinal_input frame))) (init t0))
              (astype_float (retinal_input frame)) eq_refl) as (H1 & _ & H3).
  split; [exact H1 | exact H3].
Qed.

(** The background after a run from [__init__] is the first frame's gray
    image, converted to float, blended in turn with the gray image of
    every later frame up to the first quit; it depends on neither the
    blobs found nor the clock. *)
Theorem background_accumulates {Image Contour : Type}
    {contrast : ContrastOps Image} {cv : Vision Image Contour}
    (t0 : Q) (frame : Image) (now : Q) (quit : bool)
    (rest : list (Image * Q * bool)) :
  avg_frame (fst (process_visual_field (init t0) ((frame, now, quit) :: rest)))
  = Some (fold_left (fun a e => accumulateWeighted
                                  (cvtColor_BGR2GRAY (resize (fst (fst e)) (320, 240)))
                                  a (2 # 100))
                    (until_quit rest)
                    (astype_float (cvtColor_BGR2GRAY (resize frame (320, 240))))).
Proof.
  rewrite (process_unseeded (init t0)) by reflexivity.
  destruct (process_seeded rest
              (set_avg_frame (Some (astype_float (retinal_input frame))) (init t0))
              (astype_float (retinal_input frame)) eq_refl) as (_ & H2 & _).
  exact H2.
Qed.

(** * Properties of the week 8 exercises *)

(** The perimeter and the area of a rectangle do not depend on which side
    is called length, and they satisfy [16 * area <= perimeter ^ 2], with
    equality exactly for a square. *)
Theorem rectangle_isoperimetric (length width : Z) :
  let area := fst (Week8.rectangle_area_perimeter length width) in
  let perimeter := snd (Week8.rectangle_area_perimeter length width) in
  Week8.rectangle_area_perimeter width length = (area, perimeter) /\
  16 * area <= perimeter ^ 2 /\
  (16 * area = perimeter ^ 2 <-> length = width).
Proof.
  unfold Week8.rectangle_area_perimeter. cbn [fst snd]. rewrite !Z.pow_2_r.
  split; [f_equal; ring | split].
  - assert (H0 : 0 <= (length - width) * (length - width))
      by apply Z.square_nonneg.
    lia.
  - split; intros H; [| subst; ring].
    assert (H0 : (length - width) * (length - width) = 0) by lia.
    apply Z.mul_eq_0 in H0. lia.
Qed.

Lemma even_test (n : Z) : Z.eqb (n mod 2) 0 = Z.even n.
Proof.
  rewrite Zmod_even. now destruct (Z.even n).
Qed.

Lemma sum_even_fold (numbers : list Z) (total : Z) :
  fold_left (fun total num => if Z.eqb (num mod 2) 0 then total + num else total)
            numbers total
  = total + sumZ (filter Z.even numbers).
Proof.
  revert total. induction numbers as [| n rest IH]; intros total.
  - unfold sumZ. simpl. lia.
  - cbn [fold_left filter]. rewrite IH, even_test.
    destruct (Z.even n); unfold sumZ; cbn [fold_right]; lia.
Qed.

(** [sum_even_numbers] returns the sum of the even members of the list,
    negative ones included; over a concatenation it is the sum of the
    results on the two parts, so odd numbers and the grouping of the input
    never change the total. *)
Theorem sum_even_numbers_filter (numbers more : list Z) :
  Week8.sum_even_numbers numbers = sumZ (filter Z.even numbers) /\
  Week8.sum_even_numbers (numbers ++ more)
  = Week8.sum_even_numbers numbers + Week8.sum_even_numbers more.
Proof.
  unfold Week8.sum_even_numbers. rewrite !sum_even_fold.
  split; [lia |].
  rewrite filter_app. unfold sumZ. rewrite fold_right_app.
  generalize (filter Z.even more). intros m.
  induction (filter Z.even numbers) as [| a l IH]; cbn [fold_right]; lia.
Qed.

(** The result of [sum_even_numbers] is always even, and it is 0 when the
    list has no even member. *)
Theorem sum_even_numbers_even (numbers : list Z) :
  (Week8.sum_even_numbers numbers) mod 2 = 0 /\
  (Forall (fun n => Z.even n = false) numbers ->
   Week8.sum_even_numbers numbers = 0).
Proof.
  unfold Week8.sum_even_numbers. rewrite sum_even_fold, Z.add_0_l. split.
  - induction numbers as [| n rest IH]; [reflexivity |].
    cbn [filter]. destruct (Z.even n) eqn:E; [| exact IH].
    unfold sumZ in *. cbn [fold_right].
    rewrite Zplus_mod, IH, (Zmod_even n), E. reflexivity.
  - induction 1 as [| n rest Hn _ IH]; [reflexivity |].
    cbn [filter]. now rewrite Hn.
Qed.

Lemma sum_even_numbers_even_witness :
  Week8.sum_even_numbers [1; 3; -5; 7] = 0.
Proof.
  apply (proj2 (sum_even_numbers_even [1; 3; -5; 7])).
  repeat constructor.
Defined.

(** ** Palindromes *)

Lemma list_ascii_of_string_app (s t : string) :
  list_ascii_of_string (s ++ t)%string
  = list_ascii_of_string s ++ list_ascii_of_string t.
Proof.
  induction s as [| c s IH]; [reflexivity |]. simpl. now rewrite IH.
Qed.

Lemma lower_char_idempotent (c : ascii) :
  Week8.lower_char (Week8.lower_char c) = Week8.lower_char c.
Proof.
  destruct c as [[] [] [] [] [] [] [] []]; reflexivity.
Qed.

Lemma is_palindrome_iff (s : string) :
  Week8.is_palindrome s = true
  <-> map Week8.lower_char (list_ascii_of_string s)
      = rev (map Week8.lower_char (list_ascii_of_string s)).
Proof.
  unfold Week8.is_palindrome, Week8.reversed, Week8.lower.
  rewrite list_ascii_of_string_of_list_ascii.
  set (L := map Week8.lower_char (list_ascii_of_string s)).
  destruct (String.eqb_spec (string_of_list_ascii L) (string_of_list_ascii (rev L)))
    as [E | E].
  - split; [intros _ | reflexivity].
    apply (f_equal list_ascii_of_string) in E.
    now rewrite !list_ascii_of_string_of_list_ascii in E.
  - split; [discriminate |]. intros H. exfalso. apply E. now rewrite <- H.
Qed.

Lemma bool_eq_of_iff (a b : bool) : (a = true <-> b = true) -> a = b.
Proof.
  destruct a, b; intros [H1 H2]; try reflexivity;
    [symmetry; now apply H1 | now apply H2].
Qed.

(** Any text followed by its own reverse is a palindrome, with or without
    a middle character, in any mix of upper and lower case on either
    side; so are the empty text and every text of one character. *)
Theorem mirrored_text_is_palindrome (s : string) (c : ascii) :
  Week8.is_palindrome (s ++ Week8.reversed s) = true /\
  Week8.is_palindrome (s ++ String c (Week8.reversed s)) = true /\
  Week8.is_palindrome (Week8.lower s ++ Week8.reversed s) = true /\
  Week8.is_palindrome "" = true /\
  Week8.is_palindrome (String c "") = true.
Proof.
  repeat split; try reflexivity; apply is_palindrome_iff;
    unfold Week8.reversed, Week8.lower;
    repeat (rewrite ?list_ascii_of_string_app, ?list_ascii_of_string_of_list_ascii;
            cbn [list_ascii_of_string]);
    rewrite ?map_app, ?map_cons, ?rev_app_distr; cbn [rev app map];
    rewrite ?rev_app_distr, ?map_rev, ?rev_involutive, ?map_map;
    cbn [rev app]; rewrite <- ?app_assoc; try reflexivity.
  rewrite (map_ext _ Week8.lower_char lower_char_idempotent). reflexivity.
Qed.

(** Whether a text is a palindrome is unchanged by reversing it and by
    lower-casing it first. *)
Theorem palindrome_invariant (s : string) :
  Week8.is_palindrome (Week8.reversed s) = Week8.is_palindrome s /\
  Week8.is_palindrome (Week8.lower s) = Week8.is_palindrome s.
Proof.
  split; apply bool_eq_of_iff; rewrite !is_palindrome_iff;
    unfold Week8.reversed, Week8.lower;
    rewrite list_ascii_of_string_of_list_ascii.
  - rewrite map_rev, rev_involutive. split; intros H; now symmetry.
  - rewrite map_map.
    rewrite (map_ext _ Week8.lower_char
               (fun a => lower_char_idempotent a)).
    reflexivity.
Qed.

(** * Properties of the login system *)

Section LoginProperties.

Variable sha256_hexdigest : string -> string.

Lemma validate_known (users_db : list (string * string))
    (username password stored : string) :
  Login.dict_get users_db username = Some stored ->
  (Login.validate_credentials sha256_hexdigest username password users_db = true
   <-> stored = sha256_hexdigest password).
Proof.
  intros H. unfold Login.validate_credentials, Login.hash_password.
  rewrite H. apply String.eqb_eq.
Qed.

Lemma validate_unknown (users_db : list (string * string))
    (username password : string) :
  Login.dict_get users_db username = None ->
  Login.validate_credentials sha256_hexdigest username password users_db = false.
Proof.
  intros H. unfold Login.validate_credentials. now rewrite H.
Qed.

End LoginProperties.

(** With the user table of [start_application]: the two registered pairs
    log in whatever the hash function is, and a user name other than
    admin and john never does.  When the hash function has no collision,
    a login succeeds exactly for the pairs admin/admin123 and
    john/john@2024. *)
Theorem start_application_accepts (sha256_hexdigest : string -> string)
    (username password stamp : string) :
  let login u p := fst (Login.start_application sha256_hexdigest u p stamp) in
  login "admin" "admin123" = true /\
  login "john" "john@2024" = true /\
  (username <> "admin" -> username <> "john" -> login username password = false) /\
  ((forall a b, sha256_hexdigest a = sha256_hexdigest b -> a = b) ->
   (login username password = true
    <-> (username = "admin" /\ password = "admin123")
        \/ (username = "john" /\ password = "john@2024"))).
Proof.
  intros login.
  assert (Hfst : forall u p,
             login u p
             = Login.validate_credentials sha256_hexdigest u p
                 (Login.users_db sha256_hexdigest)).
  { intros u p. unfold login, Login.start_application, Login.login_user.
    now destruct (Login.validate_credentials _ _ _ _). }
  assert (Hget : forall u,
             Login.dict_get (Login.users_db sha256_hexdigest) u
             = if String.eqb "admin" u then Some (sha256_hexdigest "admin123")
               else if String.eqb "john" u then Some (sha256_hexdigest "john@2024")
               else None) by reflexivity.
  split; [| split; [| split]].
  - rewrite Hfst. apply (validate_known _ _ _ _ (sha256_hexdigest "admin123"));
      reflexivity.
  - rewrite Hfst. apply (validate_known _ _ _ _ (sha256_hexdigest "john@2024"));
      reflexivity.
  - intros Ha Hj. rewrite Hfst. apply validate_unknown. rewrite Hget.
    destruct (String.eqb_spec "admin" username); [congruence |].
    destruct (String.eqb_spec "john" username); [congruence | reflexivity].
  - intros Hinj. rewrite Hfst. specialize (Hget username).
    destruct (String.eqb_spec "admin" username) as [<- | Ha].
    + rewrite (validate_known _ _ _ _ _ Hget). split.
      * intros H. left. split; [reflexivity |]. symmetry. now apply Hinj.
      * intros [[_ ->] | [H _]]; [reflexivity | discriminate H].
    + destruct (String.eqb_spec "john" username) as [<- | Hj].
      * rewrite (validate_known _ _ _ _ _ Hget). split.
        -- intros H. right. split; [reflexivity |]. symmetry. now apply Hinj.
        -- intros [[H _] | [_ ->]]; [discriminate H | reflexivity].
      * rewrite (validate_unknown _ _ _ _ Hget). split; [discriminate |].
        intros [[H _] | [H _]]; congruence.
Qed.

Lemma start_application_accepts_witness :
  fst (Login.start_application (fun s => s) "john" "admin123" "2024-01-01 00:00:00")
  = false /\
  fst (Login.start_application (fun s => s) "root" "admin123" "2024-01-01 00:00:00")
  = false.
Proof.
  split.
  - pose proof (proj2 (proj2 (proj2 (start_application_accepts (fun s => s)
                  "john" "admin123" "2024-01-01 00:00:00")))
                  (fun a b (e : a = b) => e)) as Hiff.
    destruct (fst (Login.start_application (fun s => s) "john" "admin123"
                     "2024-01-01 00:00:00")); [| reflexivity].
    destruct (proj1 Hiff eq_refl) as [[Hu _] | [_ Hp]];
      [discriminate Hu | discriminate Hp].
  - apply (proj1 (proj2 (proj2 (start_application_accepts (fun s => s)
             "root" "admin123" "2024-01-01 00:00:00")))); discriminate.
Defined.

(** A call of [login_user] appends exactly one record to the log and
    keeps the earlier records: the record carries the user name and the
    time stamp, and LOGIN_SUCCESS or LOGIN_FAILED according to the result,
    which is that of [validate_credentials].  The password enters the log
    in no other way: two passwords with the same verdict leave the same
    log. *)
Theorem login_user_logs (sha256_hexdigest : string -> string)
    (username password other stamp : string)
    (users_db : list (string * string)) (logs : list Login.LogEntry) :
  let r := Login.login_user sha256_hexdigest username password users_db stamp logs in
  fst r = Login.validate_credentials sha256_hexdigest username password users_db /\
  snd r = logs ++ [Login.mkLogEntry username
                     (if fst r then "LOGIN_SUCCESS" else "LOGIN_FAILED") stamp] /\
  (Login.validate_credentials sha256_hexdigest username other users_db = fst r ->
   snd (Login.login_user sha256_hexdigest username other users_db stamp logs) = snd r).
Proof.
  unfold Login.login_user, Login.log_user_activity.
  destruct (Login.validate_credentials sha256_hexdigest username password users_db);
    cbn [fst snd]; repeat split; intros ->; reflexivity.
Qed.

Lemma login_user_logs_witness :
  snd (Login.login_user (fun s => s) "admin" "guess" [("admin", "admin123")] "t" [])
  = snd (Login.login_user (fun s => s) "admin" "12345" [("admin", "admin123")] "t" []).
Proof.
  apply (proj2 (proj2 (login_user_logs (fun s => s) "admin" "12345" "guess" "t"
                         [("admin", "admin123")] []))).
  reflexivity.
Defined.

(** The same rounding at the level of a cycle: on a 448x336 frame the
    focus with bounding box (45, 45, 90, 45) appends the area 7750 and the
    centre (124, 93) to the histories. *)
Example cycle_area_rounds :
  let blob : Bench.Blob := (inject_Z 3000, (45, 45, 90, 45)) in
  let s' := fst (cycle (Bench.running [] [] 0)
                       (Bench.mkScene (336, 448) [blob]) 1) in
  area_history s' = [7750] /\ position_history s' = [(124, 93)].
Proof. split; reflexivity. Qed.
